(** * KaitoBittensorBff: the wandb fetchers and the Kinesis publisher

    A shallow embedding of [src/wandb_fetch.py] and [src/db/wandb_fetch.py],
    followed by the properties of the fetch / encode / publish pipeline.

    Modelling conventions.
    - A Python number (timestamps, metric values) is a rational [Q]; the only
      arithmetic the code performs on them is the comparison
      [timestamp < start_time].  A Python value that may be [None] is an
      [option]: [None] is Python's [None].
    - A history row (a Python [dict]) is an association list in insertion
      order, because [row.items()] is iterated in that order and the order
      decides which key writes [miner_id] last.  Keys of a [dict] are pairwise
      distinct ([wf_row]).
    - A [str] is a [string] whose characters are the code points below 256; in
      that range the regular-expression class [\d] is exactly ['0'..'9'].
    - [run.scan_history()] is the finite list of rows it yields, in order.
    - A [pandas.DataFrame] built from a list of dicts is that list of rows;
      where the bytes of a payload matter, what [row.to_dict()] reads back
      follows the frame's columns ([miner_cell], [float_cell]).
    - The Kinesis client is a state-passing oracle; the [print] and
      [time.sleep] of the publisher are recorded in a trace of events.  The
      progress [print] of the fetcher and Python's recursion limit are not
      modelled.
    - In the [__main__] block the worker pool is seen through its results:
      the run ids are taken in the order [as_completed] yields their
      futures, and a fetch that fails is the message of its exception. *)

From Stdlib Require Import List String Ascii Bool Arith ZArith QArith Lia.
From Stdlib Require Import Sorting.Sorted Sorting.Permutation.
From Stdlib Require Import DecimalString DecimalPos.
Import ListNotations.

Local Open Scope string_scope.
Local Open Scope list_scope.

(** ** Python values shared by the two source files *)

Module Py.

(** A numeric value or [None]. *)
Definition value : Type := option Q.

(** A history row: key/value pairs in insertion order. *)
Definition row : Type := list (string * value).

Definition wf_row (r : row) : Prop := NoDup (map fst r).

(** [d[key]] as a lookup that may miss. *)
Fixpoint lookup (key : string) (d : row) : option value :=
  match d with
  | [] => None
  | (k, v) :: d' => if String.eqb k key then Some v else lookup key d'
  end.

(** [d.get(key, None)]: a missing key and a key bound to [None] both give
    [None]. *)
Definition get (d : row) (key : string) : value :=
  match lookup key d with
  | Some v => v
  | None => None
  end.

(** [x < y] on numbers. *)
Definition num_lt (x y : Q) : bool :=
  (Qnum x * QDen y <? Qnum y * QDen x)%Z.

(** [x >= y] on numbers, used only in statements. *)
Definition num_ge (x y : Q) : bool := Qle_bool y x.

(** [str(n)] for an [int]. *)
Definition str (n : Z) : string := NilEmpty.string_of_int (Z.to_int n).

(** [sep.join(parts)]. *)
Fixpoint join (sep : string) (parts : list string) : string :=
  match parts with
  | [] => EmptyString
  | [p] => p
  | p :: ps => p ++ sep ++ join sep ps
  end.

(** [key.startswith(p)]. *)
Definition startswith (key p : string) : bool := String.prefix p key.

(** Truth value of a list: non-empty. *)
Definition truthy {A} (l : list A) : bool :=
  match l with [] => false | _ :: _ => true end.

(** Truth value of an optional string: present and non-empty. *)
Definition truthy_str (s : option string) : bool :=
  match s with
  | Some (String _ _) => true
  | _ => false
  end.

Definition is_not_none {A} (v : option A) : bool :=
  match v with Some _ => true | None => false end.

End Py.

(** ** src/wandb_fetch.py *)

Module WandbFetch.
Import Py.

Section Fetch.
(** [api.run(path).scan_history()]: the history of the run at [path]. *)
Variable api : string -> list row.

(** The [for row in run.scan_history()] loop; [history_data] is the list
    being appended to. *)
Fixpoint scan_history_loop (start_time : option Q) (rows : list row)
         (history_data : list row) : list row :=
  match rows with
  | [] => history_data
  | row :: rest =>
      match get row "_timestamp" with
      | Some timestamp =>
          if match start_time with
             | Some st => num_lt timestamp st
             | None => false
             end
          then history_data (* break *)
          else scan_history_loop start_time rest (history_data ++ [row])
      | None => scan_history_loop start_time rest history_data
      end
  end.

Definition fetch_run_data (run_id : string) (start_time : option Q)
  : list row * string :=
  let run := api ("openkaito/sn5-validators/" ++ run_id) in
  let history_data := scan_history_loop start_time run [] in
  (history_data, run_id).
End Fetch.

End WandbFetch.

(** ** src/db/wandb_fetch.py: the fetcher *)

Module DbWandbFetch.
Import Py.

(** *** [extract_miner_id] *)

Definition is_digit (c : ascii) : bool :=
  let n := nat_of_ascii c in (48 <=? n)%nat && (n <=? 57)%nat.

(** The longest run of digits at the head of [s], and what follows it:
    the greedy [\d+]. *)
Fixpoint span_digits (s : string) : string * string :=
  match s with
  | String c s' =>
      if is_digit c
      then let (ds, tl) := span_digits s' in (String c ds, tl)
      else (EmptyString, s)
  | EmptyString => (EmptyString, EmptyString)
  end.

(** [$]: the end of the string, or just before a newline that ends it. *)
Definition at_end (s : string) : bool :=
  match s with
  | EmptyString => true
  | String c EmptyString => Ascii.eqb c "010"%char
  | _ => false
  end.

(** The pattern [\.(\d+)$] anchored at the head of [s]; the result is
    group 1.  Giving back digits of the greedy run never helps [$], which
    would then stand before a digit, so the greedy run is the only try. *)
Definition match_here (s : string) : option string :=
  match s with
  | String c rest =>
      if Ascii.eqb c "."%char
      then let (ds, tl) := span_digits rest in
           match ds with
           | EmptyString => None
           | _ => if at_end tl then Some ds else None
           end
      else None
  | EmptyString => None
  end.

(** [re.search]: the leftmost position where the pattern matches. *)
Fixpoint re_search (s : string) : option string :=
  match match_here s with
  | Some g => Some g
  | None =>
      match s with
      | String _ s' => re_search s'
      | EmptyString => None
      end
  end.

Definition digit_value (c : ascii) : Z := Z.of_nat (nat_of_ascii c) - 48.

Fixpoint int_acc (acc : Z) (s : string) : Z :=
  match s with
  | EmptyString => acc
  | String c s' => int_acc (10 * acc + digit_value c) s'
  end.

(** [int(s)] for a string of decimal digits.  The interpreter refuses a
    string of more than 4300 digits with [ValueError]; statements that need
    [int] to answer carry that bound ([int_max_str_digits]). *)
Definition int (s : string) : Z := int_acc 0 s.

Definition extract_miner_id (key : string) : option Z :=
  match re_search key with
  | Some g => Some (int g)
  | None => None
  end.

(** *** [fetch_run_data] *)

(** The dictionary [filtered_row]. *)
Record filtered_row : Type := mk_filtered_row {
  run_name : string;
  miner_id : option Z;
  timestamp : value;
  score : value;
  loss : value;
  top1_recall : value;
  top3_recall : value
}.

Definition set_miner_id (fr : filtered_row) (m : option Z) :=
  mk_filtered_row (run_name fr) m (timestamp fr) (score fr) (loss fr)
                  (top1_recall fr) (top3_recall fr).
Definition set_score (fr : filtered_row) (v : value) :=
  mk_filtered_row (run_name fr) (miner_id fr) (timestamp fr) v (loss fr)
                  (top1_recall fr) (top3_recall fr).
Definition set_loss (fr : filtered_row) (v : value) :=
  mk_filtered_row (run_name fr) (miner_id fr) (timestamp fr) (score fr) v
                  (top1_recall fr) (top3_recall fr).
Definition set_top1_recall (fr : filtered_row) (v : value) :=
  mk_filtered_row (run_name fr) (miner_id fr) (timestamp fr) (score fr)
                  (loss fr) v (top3_recall fr).
Definition set_top3_recall (fr : filtered_row) (v : value) :=
  mk_filtered_row (run_name fr) (miner_id fr) (timestamp fr) (score fr)
                  (loss fr) (top1_recall fr) v.

Definition raw_scores_prefix := "TextEmbeddingSynapse_raw_scores".
Definition losses_prefix := "TextEmbeddingSynapse_losses".
Definition top1_recalls_prefix := "TextEmbeddingSynapse_top1_recalls".
Definition top3_recalls_prefix := "TextEmbeddingSynapse_top3_recalls".

(** One turn of [for key, value in row.items()]: the [if]/[elif] chain. *)
Definition scan_item (fr : filtered_row) (item : string * value)
  : filtered_row :=
  let (key, value) := item in
  if startswith key raw_scores_prefix && is_not_none value then
    set_miner_id (set_score fr value) (extract_miner_id key)
  else if startswith key losses_prefix && is_not_none value then
    set_miner_id (set_loss fr value) (extract_miner_id key)
  else if startswith key top1_recalls_prefix && is_not_none value then
    set_miner_id (set_top1_recall fr value) (extract_miner_id key)
  else if startswith key top3_recalls_prefix && is_not_none value then
    set_miner_id (set_top3_recall fr value) (extract_miner_id key)
  else fr.

(** The row dictionary as initialised and then filled by the key loop. *)
Definition fill_row (run_id : string) (ts : Q) (row : row) : filtered_row :=
  fold_left scan_item row
            (mk_filtered_row run_id None (Some ts) None None None None).

(** [all(filtered_row[field] is not None for field in [...])]. *)
Definition all_populated (fr : filtered_row) : bool :=
  forallb (fun field : filtered_row -> value => is_not_none (field fr))
          [score; loss; top1_recall; top3_recall].

Section Fetch.
Variable api : string -> list row.

(** The [for row in run.scan_history(page_size=1)] loop. *)
Fixpoint scan_history_loop (run_id : string) (start_time : option Q)
         (rows : list row) (history_data : list filtered_row)
  : list filtered_row :=
  match rows with
  | [] => history_data
  | row :: rest =>
      match get row "_timestamp" with
      | Some ts =>
          if match start_time with
             | Some st => num_lt ts st
             | None => false
             end
          then history_data (* break *)
          else
            let fr := fill_row run_id ts row in
            if all_populated fr
            then scan_history_loop run_id start_time rest
                                   (history_data ++ [fr])
            else scan_history_loop run_id start_time rest history_data
      | None => scan_history_loop run_id start_time rest history_data
      end
  end.

Definition fetch_run_data (run_id : string) (start_time : option Q)
  : list filtered_row * string :=
  let run := api ("openkaito/sn5-validators/" ++ run_id) in
  let history_data := scan_history_loop run_id start_time run [] in
  (history_data, run_id).
End Fetch.

(** *** The Kinesis client and the effects of the publisher *)

(** A record of the [Records=] argument. *)
Record kinesis_record : Type := mk_record {
  Data : string;
  PartitionKey : string
}.

(** One entry of [response["Records"]]; [ErrorCode] is
    [res.get("ErrorCode")]. *)
Record result_entry : Type := mk_entry {
  ErrorCode : option string
}.

Record put_response : Type := mk_response {
  FailedRecordCount : Z;
  Records : list result_entry
}.

(** What [kinesis_client.put_records(...)] does: raise an exception [e]
    (kept as [str(e)]) or return a response. *)
Inductive put_outcome : Type :=
| PutRaised (e : string)
| PutReturned (response : put_response).

Inductive exn : Type :=
| RuntimeError (msg : string)
| IndexError.

Inductive event : Type :=
| EvPutRecords (records : list kinesis_record) (stream_name : string)
| EvPrint (msg : string)
| EvSleep (secs : Z).

Section Publisher.
Variable client : Type.
Variable put_records :
  client -> list kinesis_record -> string -> put_outcome * client.

(** Computations that step the client, may raise, and log their events
    in the order they happen. *)
Definition M (A : Type) : Type := client -> (exn + A) * client * list event.

Definition ret {A} (a : A) : M A := fun c => (inr a, c, []).

Definition raise {A} (e : exn) : M A := fun c => (inl e, c, []).

Definition bind {A B} (m : M A) (k : A -> M B) : M B :=
  fun c =>
    match m c with
    | (inl e, c', t) => (inl e, c', t)
    | (inr a, c', t) =>
        match k a c' with
        | (r, c'', t') => (r, c'', t ++ t')
        end
    end.

Notation "x <- m ;; k" := (bind m (fun x => k))
  (at level 61, m at next level, right associativity).
Notation "' pat <- m ;; k" :=
  (bind m (fun x => match x with pat => k end))
  (at level 61, pat pattern, m at next level, right associativity).
Notation "m ;; k" := (bind m (fun _ => k))
  (at level 61, right associativity).

Definition emit (e : event) : M unit := fun c => (inr tt, c, [e]).
Definition print (msg : string) : M unit := emit (EvPrint msg).
Definition sleep (secs : Z) : M unit := emit (EvSleep secs).

(** The body of the [try]: the call, with its exception caught. *)
Definition call_put_records (records : list kinesis_record)
           (stream_name : string) : M put_outcome :=
  fun c =>
    let (o, c') := put_records c records stream_name in
    (inr o, c', [EvPutRecords records stream_name]).

Definition lift {A} (r : exn + A) : M A := fun c => (r, c, []).

(** [for idx, res in enumerate(response["Records"])], started at index
    [idx] with the lists [codes] and [failed_records] built so far.
    [records_to_kinesis[idx]] raises [IndexError] out of range. *)
Fixpoint collect_failed (records_to_kinesis : list kinesis_record)
         (idx : nat) (entries : list result_entry)
         (codes : list string) (failed_records : list kinesis_record)
  : exn + (list string * list kinesis_record) :=
  match entries with
  | [] => inr (codes, failed_records)
  | res :: rest =>
      if negb (truthy_str (ErrorCode res)) then
        collect_failed records_to_kinesis (S idx) rest codes failed_records
      else
        match ErrorCode res, nth_error records_to_kinesis idx with
        | Some code, Some r =>
            collect_failed records_to_kinesis (S idx) rest
                           (codes ++ [code]) (failed_records ++ [r])
        | _, _ => inl IndexError
        end
  end.

(** Everything before the retry logic: the call and the computation of
    [failed_records] and [err_msg]. *)
Definition attempt (records_to_kinesis : list kinesis_record)
           (stream_name : string)
  : M (list kinesis_record * string) :=
  outcome <- call_put_records records_to_kinesis stream_name ;;
  let '(response, failed_records, err_msg) :=
    match outcome with
    | PutReturned response => (Some response, [], EmptyString)
    | PutRaised e => (None, records_to_kinesis, e)
    end in
  match response with
  | Some response =>
      if negb (truthy failed_records)
         && (FailedRecordCount response >? 0)%Z
      then
        ' (codes, failed_records) <-
          lift (collect_failed records_to_kinesis 0 (Records response)
                               [] failed_records) ;;
        ret (failed_records,
             ("Individual error codes: " ++ join "," codes)%string)
      else ret (failed_records, err_msg)
  | None => ret (failed_records, err_msg)
  end.

Definition retrying_msg (err_msg : string) : string :=
  "Some records failed while calling PutRecords to Kinesis stream, retrying. "
  ++ err_msg.

Definition could_not_msg (retry_times : Z) (err_msg : string) : string :=
  "Could not put records after " ++ str retry_times ++ " attempts. "
  ++ err_msg.

(** [put_records_to_kinesis], by recursion on [rounds], the number of
    retries still allowed: [rounds] is [Z.to_nat retry_times], so it is
    a successor exactly when [retry_times > 0].  The source's own
    recursive equation, with that test, is [put_records_to_kinesis_eq]
    below. *)
Fixpoint put_records_rounds (rounds : nat)
         (records_to_kinesis : list kinesis_record)
         (stream_name : string) (retry_times : Z) : M unit :=
  ' (failed_records, err_msg) <- attempt records_to_kinesis stream_name ;;
  if truthy failed_records then
    match rounds with
    | S rounds' =>
        print (retrying_msg err_msg) ;;
        sleep 1 ;;
        put_records_rounds rounds' failed_records stream_name
                           (retry_times - 1)
    | O => raise (RuntimeError (could_not_msg retry_times err_msg))
    end
  else ret tt.

Definition put_records_to_kinesis
           (records_to_kinesis : list kinesis_record)
           (stream_name : string) (retry_times : Z) : M unit :=
  put_records_rounds (Z.to_nat retry_times) records_to_kinesis
                     stream_name retry_times.

(** *** [send_to_kinesis] *)

(** [json.dumps(row.to_dict())], of the standard library. *)
Variable json_dumps : filtered_row -> string.
(** The interpreter's [hash] on [str], fixed when the process starts. *)
Variable hash : string -> Z.

Definition newline : string := String "010"%char EmptyString.

(** The record built for one row of the frame. *)
Definition encode_row (row : filtered_row) : kinesis_record :=
  {| Data := json_dumps row ++ newline;
     PartitionKey := str (hash (run_name row)) |}.

Definition send_to_kinesis (metrics_dataframe : list filtered_row)
           (stream_name : string) : M unit :=
  let records_to_kinesis := map encode_row metrics_dataframe in
  put_records_to_kinesis records_to_kinesis stream_name 10.

(** *** Reading a trace *)

(** The batches submitted to the client, in order. *)
Fixpoint put_batches (t : list event) : list (list kinesis_record) :=
  match t with
  | [] => []
  | EvPutRecords records _ :: t' => records :: put_batches t'
  | _ :: t' => put_batches t'
  end.

(** The pauses taken, in order. *)
Fixpoint sleeps (t : list event) : list Z :=
  match t with
  | [] => []
  | EvSleep s :: t' => s :: sleeps t'
  | _ :: t' => sleeps t'
  end.

Definition result_of {A} (x : (exn + A) * client * list event) : exn + A :=
  fst (fst x).
Definition client_of {A} (x : (exn + A) * client * list event) : client :=
  snd (fst x).
Definition trace_of {A} (x : (exn + A) * client * list event)
  : list event := snd x.

End Publisher.

Arguments ret {client A} _ _.
Arguments raise {client A} _ _.
Arguments bind {client A B} _ _ _.
Arguments result_of {client A} _.
Arguments client_of {client A} _.
Arguments trace_of {client A} _.

(** *** The [__main__] block *)

Section Main.
Variable client : Type.
Variable put_records :
  client -> list kinesis_record -> string -> put_outcome * client.
Variable json_dumps : filtered_row -> string.
Variable hash : string -> Z.
(** [str(metrics_dataframe)], as [print] shows a frame. *)
Variable frame_str : list filtered_row -> string.
(** The tracking service: the history of a run, and, for a run whose fetch
    fails, the message of the exception [future.result()] raises. *)
Variable api : string -> list row.
Variable api_error : string -> option string.

(** [str(e)] for the exceptions of the publisher. *)
Definition str_exn (e : exn) : string :=
  match e with
  | RuntimeError msg => msg
  | IndexError => "list index out of range"
  end.

(** [try: body except Exception as e: handler(e)]. *)
Definition try_except {A} (body : M client A) (handler : exn -> M client A)
  : M client A :=
  fun c =>
    match body c with
    | (inl e, c', t) =>
        match handler e c' with
        | (r, c'', t') => (r, c'', t ++ t')
        end
    | (inr a, c', t) => (inr a, c', t)
    end.

Definition fetch_error_msg (e : string) : string :=
  "Error fetching data for run: " ++ e.

Definition metrics_msg (run_id : string) (df : list filtered_row) : string :=
  "Metrics for run " ++ run_id ++ ":" ++ String "010"%char " "
  ++ frame_str df.

(** [future.result()] for the fetch of [run_id]. *)
Definition future_result (run_id : string) (start_time : option Q)
  : string + (list filtered_row * string) :=
  match api_error run_id with
  | Some e => inl e
  | None => inr (fetch_run_data api run_id start_time)
  end.

(** The body of [for future in as_completed(futures)]: the [try] with its
    handler. *)
Definition process_future (run_id : string) (start_time : option Q)
           (stream_name : string) : M client unit :=
  match future_result run_id start_time with
  | inl e => print client (fetch_error_msg e)
  | inr (metrics_dataframe, run_id') =>
      try_except
        (bind (print client (metrics_msg run_id' metrics_dataframe))
              (fun _ => send_to_kinesis client put_records json_dumps hash
                                        metrics_dataframe stream_name))
        (fun e => print client (fetch_error_msg (str_exn e)))
  end.

(** The loop over the futures, [completed] being the run ids in the order
    [as_completed] yields their futures. *)
Fixpoint as_completed_loop (completed : list string) (start_time : option Q)
         (stream_name : string) : M client unit :=
  match completed with
  | [] => ret tt
  | run_id :: rest =>
      bind (process_future run_id start_time stream_name)
           (fun _ => as_completed_loop rest start_time stream_name)
  end.

Definition success_msg : string :=
  "Data has been successfully sent to Kinesis.".

(** The block from the [with ThreadPoolExecutor] on, for the run ids
    [completed] in completion order. *)
Definition main_block (completed : list string) (start_time : option Q)
           (stream_name : string) : M client unit :=
  bind (as_completed_loop completed start_time stream_name)
       (fun _ => print client success_msg).

(** The block with the constants of the script; [start_time] is
    [datetime(2023, 9, 20).timestamp()], which depends on the local time
    zone. *)
Definition main (start_time : Q) : M client unit :=
  main_block ["mj4f45m1"] (Some start_time) "your-kinesis-stream-name".

End Main.

(** *** A row of the frame as [json.dumps] receives it *)







Section FrameCodec.
(** [repr] of the float nearest to a number, and the JSON literal of a
    [str], both of the interpreter. *)
Variable float_repr : Q -> string.
Variable json_str : string -> string.





Variable hash : string -> Z.


Variable client : Type.
Variable put_records :
  client -> list kinesis_record -> string -> put_outcome * client.

End FrameCodec.

End DbWandbFetch.

Import Py DbWandbFetch.

(** ** Vocabulary of the statements *)

(** The path under which both fetchers look a run up. *)
Definition run_path (run_id : string) : string :=
  "openkaito/sn5-validators/" ++ run_id.

(** The non-null timestamps of a history, in stream order. *)
Definition timestamps (rows : list row) : list Q :=
  flat_map (fun r => match get r "_timestamp" with
                     | Some ts => [ts]
                     | None => []
                     end) rows.

(** Strictly descending: each timestamp is below the one before it. *)
Definition descending (l : list Q) : Prop := Sorted (fun a b => (b < a)%Q) l.

(** The row has a timestamp and it is at or after the cutoff. *)
Definition at_or_after (T : Q) (r : row) : bool :=
  match get r "_timestamp" with
  | Some ts => num_ge ts T
  | None => false
  end.

(** The record has a timestamp and it is at or after the cutoff. *)
Definition record_at_or_after (T : Q) (fr : filtered_row) : bool :=
  match timestamp fr with
  | Some ts => num_ge ts T
  | None => false
  end.

(** What the second fetcher appends for one row it retains: the filled
    dictionary when its four metric fields are populated, nothing
    otherwise. *)
Definition row_records (run_id : string) (r : row) : list filtered_row :=
  match get r "_timestamp" with
  | Some ts =>
      let fr := fill_row run_id ts r in
      if all_populated fr then [fr] else []
  | None => []
  end.

(** The rows the scanning loop reaches before its [break]. *)
Fixpoint scanned (start_time : option Q) (rows : list row) : list row :=
  match rows with
  | [] => []
  | r :: rest =>
      match get r "_timestamp", start_time with
      | Some ts, Some st =>
          if num_lt ts st then [] else r :: scanned start_time rest
      | _, _ => r :: scanned start_time rest
      end
  end.

(** A key of one of the four metric families. *)
Definition recognized_key (key : string) : bool :=
  startswith key raw_scores_prefix || startswith key losses_prefix
  || startswith key top1_recalls_prefix || startswith key top3_recalls_prefix.

(** The last key of a recognized family in iteration order, whatever its
    value. *)
Fixpoint last_recognized_key (r : row) : option string :=
  match r with
  | [] => None
  | (k, _) :: rest =>
      match last_recognized_key rest with
      | Some k' => Some k'
      | None => if recognized_key k then Some k else None
      end
  end.

(** The longest digit string [int] converts, as the interpreter is
    configured by default ([sys.int_info.default_max_str_digits]). *)
Definition int_max_str_digits : nat := 4300.

(** A string made of decimal digits only. *)
Fixpoint all_digits (s : string) : bool :=
  match s with
  | EmptyString => true
  | String c s' => is_digit c && all_digits s'
  end.

(** ** Filling one row: vocabulary *)

(** An item that one of the four branches of the key loop takes: a key of a
    recognized family bound to a value that is not [None]. *)
Definition populating (item : string * value) : bool :=
  recognized_key (fst item) && is_not_none (snd item).

(** The field [v] of the filled dictionary is still the initial [v0], or it
    was written from an item of the row whose key starts with [p]. *)
Definition sourced (p : string) (r : row) (v0 v : value) : Prop :=
  v = v0
  \/ exists k x, In (k, Some x) r /\ startswith k p = true /\ v = Some x.

(** ** The publisher: vocabulary *)

(** The sink rejected this entry: it carries a non-empty [ErrorCode]. *)
Definition rejected (e : result_entry) : bool := truthy_str (ErrorCode e).

(** The records of [batch] whose position, counted from [i], is in the
    index set [rej], in their order in [batch]. *)
Fixpoint select_from (rej : nat -> bool) (i : nat)
         (batch : list kinesis_record) : list kinesis_record :=
  match batch with
  | [] => []
  | r :: rest =>
      if rej i then r :: select_from rej (S i) rest
      else select_from rej (S i) rest
  end.

Definition records_at (rej : nat -> bool) (batch : list kinesis_record)
  : list kinesis_record := select_from rej 0 batch.

(** The call failed for the whole batch: it raised, or its response
    rejects every record of the batch. *)
Definition total_failure (o : put_outcome) (batch : list kinesis_record)
  : bool :=
  match o with
  | PutRaised _ => true
  | PutReturned resp =>
      (FailedRecordCount resp >? 0)%Z
      && (List.length (Records resp) =? List.length batch)%nat
      && forallb rejected (Records resp)
  end.

(** The call returned and reports no failed record. *)
Definition full_success (o : put_outcome) : bool :=
  match o with
  | PutRaised _ => false
  | PutReturned resp => (FailedRecordCount resp =? 0)%Z
  end.

Section ClientStates.
Variable client : Type.
Variable put_records :
  client -> list kinesis_record -> string -> put_outcome * client.

(** The client after [n] calls that each submitted [batch]. *)
Fixpoint client_after (batch : list kinesis_record) (stream_name : string)
         (n : nat) (c : client) : client :=
  match n with
  | O => c
  | S n' =>
      client_after batch stream_name n'
                   (snd (put_records c batch stream_name))
  end.
End ClientStates.

(** ** Concrete histories *)

(** An [api] that knows the single run ["r1"]. *)
Definition api_r1 (rows : list row) : string -> list row :=
  fun path =>
    if String.eqb path "openkaito/sn5-validators/r1" then rows else [].

(** The four rows of the scenario with the keys as the specification
    writes them. *)
Definition scenario_rows_literal : list row :=
  [ [("_timestamp", Some 100%Q); ("score.7", Some 0.9%Q)];
    [("_timestamp", Some 100%Q); ("loss.7", Some 0.2%Q)];
    [("_timestamp", Some 100%Q); ("top1_recall.7", Some 0.5%Q)];
    [("_timestamp", Some 100%Q); ("top3_recall.7", Some 0.8%Q)] ].

(** The same four rows with the key prefixes the code recognizes. *)
Definition scenario_rows : list row :=
  [ [("_timestamp", Some 100%Q);
     ("TextEmbeddingSynapse_raw_scores.7", Some 0.9%Q)];
    [("_timestamp", Some 100%Q);
     ("TextEmbeddingSynapse_losses.7", Some 0.2%Q)];
    [("_timestamp", Some 100%Q);
     ("TextEmbeddingSynapse_top1_recalls.7", Some 0.5%Q)];
    [("_timestamp", Some 100%Q);
     ("TextEmbeddingSynapse_top3_recalls.7", Some 0.8%Q)] ].

(** The four metrics of miner 7 carried by one row. *)
Definition scenario_single_row : row :=
  [ ("_timestamp", Some 100%Q);
    ("TextEmbeddingSynapse_raw_scores.7", Some 0.9%Q);
    ("TextEmbeddingSynapse_losses.7", Some 0.2%Q);
    ("TextEmbeddingSynapse_top1_recalls.7", Some 0.5%Q);
    ("TextEmbeddingSynapse_top3_recalls.7", Some 0.8%Q) ].

Definition scenario_record : filtered_row :=
  mk_filtered_row "r1" (Some 7%Z) (Some 100%Q) (Some 0.9%Q) (Some 0.2%Q)
                  (Some 0.5%Q) (Some 0.8%Q).

(** One row whose four metric keys name four different miners. *)
Definition mixed_miners_row : row :=
  [ ("_timestamp", Some 100%Q);
    ("TextEmbeddingSynapse_raw_scores.1", Some 0.9%Q);
    ("TextEmbeddingSynapse_losses.2", Some 0.2%Q);
    ("TextEmbeddingSynapse_top1_recalls.3", Some 0.5%Q);
    ("TextEmbeddingSynapse_top3_recalls.4", Some 0.8%Q) ].

(** One row whose metric keys carry no [.<digits>] suffix. *)
Definition bare_keys_row : row :=
  [ ("_timestamp", Some 100%Q);
    ("TextEmbeddingSynapse_raw_scores", Some 0.9%Q);
    ("TextEmbeddingSynapse_losses", Some 0.2%Q);
    ("TextEmbeddingSynapse_top1_recalls", Some 0.5%Q);
    ("TextEmbeddingSynapse_top3_recalls", Some 0.8%Q) ].

(** A complete row for miner 1 followed by a key of miner 2 bound to
    [None]. *)
Definition trailing_null_row : row :=
  [ ("_timestamp", Some 100%Q);
    ("TextEmbeddingSynapse_raw_scores.1", Some 0.9%Q);
    ("TextEmbeddingSynapse_losses.1", Some 0.2%Q);
    ("TextEmbeddingSynapse_top1_recalls.1", Some 0.5%Q);
    ("TextEmbeddingSynapse_top3_recalls.1", Some 0.8%Q);
    ("TextEmbeddingSynapse_raw_scores.2", None) ].

(** ** Concrete clients *)

(** The state of these clients is the number of calls received. *)

(** The response that rejects the second of three records. *)
Definition first_response : put_response :=
  mk_response 1
    [mk_entry None;
     mk_entry (Some "ProvisionedThroughputExceededException");
     mk_entry None].

(** Answers its first call with [first_response], accepts everything
    afterwards. *)
Definition sink_rejects_second
  : nat -> list kinesis_record -> string -> put_outcome * nat :=
  fun n batch _ =>
    (match n with
     | O => PutReturned first_response
     | _ => PutReturned (mk_response 0 (map (fun _ => mk_entry None) batch))
     end, S n).

(** Rejects every record of every batch. *)
Definition sink_rejects_all
  : nat -> list kinesis_record -> string -> put_outcome * nat :=
  fun n batch _ =>
    (PutReturned
       (mk_response (Z.of_nat (List.length batch))
                    (map (fun _ => mk_entry (Some "InternalFailure")) batch)),
     S n).

(** Raises on its first two calls, accepts everything afterwards. *)
Definition sink_down_twice
  : nat -> list kinesis_record -> string -> put_outcome * nat :=
  fun n batch _ =>
    (if (n <? 2)%nat then PutRaised "timed out"
     else PutReturned (mk_response 0 (map (fun _ => mk_entry None) batch)),
     S n).

(** Rejects the first record of the batch of its first call, accepts
    everything afterwards; every response has one entry per record. *)
Definition sink_rejects_first_once
  : nat -> list kinesis_record -> string -> put_outcome * nat :=
  fun n batch _ =>
    (match n, batch with
     | O, _ :: rest =>
         PutReturned
           (mk_response 1
              (mk_entry (Some "InternalFailure")
                 :: map (fun _ => mk_entry None) rest))
     | _, _ =>
         PutReturned (mk_response 0 (map (fun _ => mk_entry None) batch))
     end, S n).

Definition three_records : list kinesis_record :=
  [mk_record "a" "k"; mk_record "b" "k"; mk_record "c" "k"].

(** Stand-ins for [json.dumps] and [hash]. *)
Definition toy_dumps (r : filtered_row) : string := run_name r.
Definition toy_hash (s : string) : Z := Z.of_nat (String.length s).

(** A row at timestamp [ts] carrying the four metrics of miner 7. *)
Definition complete_row_at (ts : Q) : row :=
  [ ("_timestamp", Some ts);
    ("TextEmbeddingSynapse_raw_scores.7", Some 0.9%Q);
    ("TextEmbeddingSynapse_losses.7", Some 0.2%Q);
    ("TextEmbeddingSynapse_top1_recalls.7", Some 0.5%Q);
    ("TextEmbeddingSynapse_top3_recalls.7", Some 0.8%Q) ].

(** A descending history straddling the timestamp 200. *)
Definition straddling_rows : list row :=
  [complete_row_at 300%Q; complete_row_at 200%Q; complete_row_at 100%Q].

(** A row without ['_timestamp']. *)
Definition untimed_row : row := [("_step", Some 3%Q)].

(** ** Vocabulary of the further properties *)

(** The row carries a non-null ['_timestamp']. *)
Definition has_timestamp (r : row) : bool :=
  is_not_none (get r "_timestamp").

(** The row binds some key starting with [p] to a non-null value. *)
Definition has_family (p : string) (r : row) : bool :=
  existsb (fun item => startswith (fst item) p && is_not_none (snd item)) r.

(** The row has a timestamp and a non-null value for each of the four
    metric families. *)
Definition complete_row (r : row) : bool :=
  has_timestamp r
  && has_family raw_scores_prefix r && has_family losses_prefix r
  && has_family top1_recalls_prefix r && has_family top3_recalls_prefix r.

(** The four metric families, with the key prefix and the field of the
    dictionary that belong to each. *)
Inductive family : Type := Score | Loss | Top1Recall | Top3Recall.

Definition family_prefix (f : family) : string :=
  match f with
  | Score => raw_scores_prefix
  | Loss => losses_prefix
  | Top1Recall => top1_recalls_prefix
  | Top3Recall => top3_recalls_prefix
  end.

Definition family_field (f : family) : filtered_row -> value :=
  match f with
  | Score => score
  | Loss => loss
  | Top1Recall => top1_recall
  | Top3Recall => top3_recall
  end.

(** The item binds a key of family [f] to a non-null value. *)
Definition populates (f : family) (item : string * value) : bool :=
  startswith (fst item) (family_prefix f) && is_not_none (snd item).

(** [l] is [l'] with some elements left out, the others in order. *)
Inductive subseq {A : Type} : list A -> list A -> Prop :=
| subseq_nil : subseq [] []
| subseq_skip : forall x l l', subseq l l' -> subseq l (x :: l')
| subseq_keep : forall x l l', subseq l l' -> subseq (x :: l) (x :: l').

(** What one retry adds to the trace: the message, the pause, the call. *)
Definition retry_events (stream_name : string)
           (r : string * list kinesis_record) : list event :=
  [EvPrint (retrying_msg (fst r)); EvSleep 1;
   EvPutRecords (snd r) stream_name].

(** The stream names of the calls made, in order. *)
Fixpoint put_streams (t : list event) : list string :=
  match t with
  | [] => []
  | EvPutRecords _ s :: t' => s :: put_streams t'
  | _ :: t' => put_streams t'
  end.

(** The messages printed, in order. *)
Fixpoint prints (t : list event) : list string :=
  match t with
  | [] => []
  | EvPrint m :: t' => m :: prints t'
  | _ :: t' => prints t'
  end.

(** The positions a response rejects: those of its entries that carry a
    non-empty [ErrorCode]. *)
Definition rejected_at (resp : put_response) (i : nat) : bool :=
  match nth_error (Records resp) i with
  | Some e => rejected e
  | None => false
  end.

(** The records of [batch] a call with outcome [o] took in: none when the
    call raised, those at the positions not rejected when it returned. *)
Definition accepted_by (o : put_outcome) (batch : list kinesis_record)
  : list kinesis_record :=
  match o with
  | PutRaised _ => []
  | PutReturned resp => records_at (fun i => negb (rejected_at resp i)) batch
  end.

(** The outcome answers the batch as the service documents: a response has
    one entry per record and a positive [FailedRecordCount] whenever an
    entry is rejected. *)
Definition honest (o : put_outcome) (batch : list kinesis_record) : bool :=
  match o with
  | PutRaised _ => true
  | PutReturned resp =>
      (List.length (Records resp) =? List.length batch)%nat
      && (negb (existsb rejected (Records resp))
          || (FailedRecordCount resp >? 0)%Z)
  end.

(** A client that also keeps the list of the calls it received, each with
    the batch submitted and the outcome it gave. *)
Definition logged {client : Type}
           (put_records :
              client -> list kinesis_record -> string -> put_outcome * client)
  : client * list (list kinesis_record * put_outcome) ->
    list kinesis_record -> string ->
    put_outcome * (client * list (list kinesis_record * put_outcome)) :=
  fun st batch stream_name =>
    let (o, c') := put_records (fst st) batch stream_name in
    (o, (c', snd st ++ [(batch, o)])).

(** Everything the logged calls took in. *)
Definition accepted_in (log : list (list kinesis_record * put_outcome))
  : list kinesis_record :=
  flat_map (fun call => accepted_by (snd call) (fst call)) log.






(** ** The pattern of [extract_miner_id] *)

Lemma span_digits_all (ds : string) :
  all_digits ds = true -> span_digits ds = (ds, EmptyString).
Proof.
  induction ds as [|c ds IH]; simpl; [reflexivity|].
  intros H. apply andb_prop in H. destruct H as [Hc Hds].
  now rewrite Hc, (IH Hds).
Qed.

Lemma span_digits_stops (f rest : string) :
  exists q, snd (span_digits (f ++ String "."%char rest))
            = (q ++ String "."%char rest)%string.
Proof.
  induction f as [|c f [q IH]]; simpl.
  - now exists EmptyString.
  - destruct (is_digit c).
    + destruct (span_digits (f ++ String "."%char rest)) as [ds tl].
      simpl in *. now exists q.
    + now exists (String c f).
Qed.

Lemma at_end_before_suffix (q digits : string) :
  digits <> EmptyString ->
  at_end (q ++ String "."%char digits) = false.
Proof.
  intros Hne. destruct q as [|c q]; simpl.
  - destruct digits; [congruence|reflexivity].
  - destruct q; reflexivity.
Qed.

(** On a key that follows the convention [<Family>.<digits>], whatever the
    family holds, the miner id is the number the digits spell. *)
Lemma extract_miner_id_convention (family digits : string) :
  digits <> EmptyString -> all_digits digits = true ->
  extract_miner_id (family ++ String "."%char digits) = Some (int digits).
Proof.
  intros Hne Hall. unfold extract_miner_id.
  assert (H : re_search (family ++ String "."%char digits) = Some digits).
  { induction family as [|c f IH].
    - simpl. rewrite (span_digits_all _ Hall).
      destruct digits; [congruence|reflexivity].
    - change ((String c f ++ String "."%char digits)%string)
        with (String c (f ++ String "."%char digits)).
      cbn [re_search].
      assert (Hm : match_here (String c (f ++ String "."%char digits))
                   = None).
      { unfold match_here. destruct (Ascii.eqb c "."%char); [|reflexivity].
        destruct (span_digits_stops f digits) as [q Hq].
        destruct (span_digits (f ++ String "."%char digits)) as [ds tl].
        simpl in Hq. subst tl. rewrite (at_end_before_suffix q digits Hne).
        now destruct ds. }
      rewrite Hm. exact IH. }
  now rewrite H.
Qed.

(** ** The scanning loops *)

Section ScanLoops.
Variable run_id : string.

Lemma raw_loop_acc (start_time : option Q) (rows acc : list row) :
  WandbFetch.scan_history_loop start_time rows acc
  = acc ++ WandbFetch.scan_history_loop start_time rows [].
Proof.
  revert acc; induction rows as [|r rest IH]; intros acc; simpl.
  - now rewrite app_nil_r.
  - destruct (get r "_timestamp") as [ts|]; [|apply IH].
    destruct (match start_time with
              | Some st => num_lt ts st
              | None => false
              end).
    + now rewrite app_nil_r.
    + rewrite IH, (IH [r]). now rewrite app_assoc.
Qed.

Lemma db_loop_acc (start_time : option Q) (rows : list row)
      (acc : list filtered_row) :
  DbWandbFetch.scan_history_loop run_id start_time rows acc
  = acc ++ DbWandbFetch.scan_history_loop run_id start_time rows [].
Proof.
  revert acc; induction rows as [|r rest IH]; intros acc; simpl.
  - now rewrite app_nil_r.
  - destruct (get r "_timestamp") as [ts|]; [|apply IH].
    destruct (match start_time with
              | Some st => num_lt ts st
              | None => false
              end).
    + now rewrite app_nil_r.
    + destruct (all_populated (fill_row run_id ts r)); [|apply IH].
      rewrite IH, (IH [_]). now rewrite app_assoc.
Qed.

(** The first loop keeps the scanned rows that carry a timestamp. *)
Lemma raw_loop_scanned (start_time : option Q) (rows : list row) :
  WandbFetch.scan_history_loop start_time rows []
  = filter (fun r => is_not_none (get r "_timestamp"))
           (scanned start_time rows).
Proof.
  induction rows as [|r rest IH]; simpl; [reflexivity|].
  destruct (get r "_timestamp") as [ts|] eqn:Hts.
  - destruct start_time as [st|].
    + destruct (num_lt ts st); [reflexivity|].
      simpl. rewrite Hts. simpl. rewrite raw_loop_acc, IH. reflexivity.
    + simpl. rewrite Hts. simpl. rewrite raw_loop_acc, IH. reflexivity.
  - destruct start_time; simpl; rewrite Hts; simpl; exact IH.
Qed.

(** The second loop emits, row by row, the records of the scanned rows. *)
Lemma db_loop_scanned (start_time : option Q) (rows : list row) :
  DbWandbFetch.scan_history_loop run_id start_time rows []
  = flat_map (row_records run_id) (scanned start_time rows).
Proof.
  induction rows as [|r rest IH]; simpl; [reflexivity|].
  unfold row_records at 1.
  destruct (get r "_timestamp") as [ts|] eqn:Hts.
  - assert (Hgo :
      (if all_populated (fill_row run_id ts r)
       then DbWandbFetch.scan_history_loop run_id start_time rest
              [fill_row run_id ts r]
       else DbWandbFetch.scan_history_loop run_id start_time rest [])
      = flat_map (row_records run_id) (r :: scanned start_time rest)).
    { simpl. unfold row_records at 1. rewrite Hts. cbv zeta.
      destruct (all_populated (fill_row run_id ts r)).
      - rewrite db_loop_acc, IH. reflexivity.
      - rewrite IH. reflexivity. }
    destruct start_time as [st|]; [destruct (num_lt ts st)|]; simpl in *;
      auto.
  - assert (Hgo : DbWandbFetch.scan_history_loop run_id start_time rest []
                  = flat_map (row_records run_id)
                             (r :: scanned start_time rest)).
    { simpl. unfold row_records at 1. rewrite Hts. exact IH. }
    destruct start_time; exact Hgo.
Qed.

Lemma scanned_prefix (start_time : option Q) (rows : list row) :
  exists rest, rows = scanned start_time rows ++ rest.
Proof.
  induction rows as [|r rows' [rest IH]]; simpl.
  - now exists [].
  - destruct (get r "_timestamp") as [ts|], start_time as [st|];
      try (exists rest; simpl; now rewrite <- IH).
    destruct (num_lt ts st).
    + now exists (r :: rows').
    + exists rest. simpl. now rewrite <- IH.
Qed.

Lemma scanned_incl (start_time : option Q) (rows : list row) (r : row) :
  In r (scanned start_time rows) -> In r rows.
Proof.
  destruct (scanned_prefix start_time rows) as [rest H]. intros Hin.
  rewrite H. apply in_or_app. now left.
Qed.
End ScanLoops.

Lemma scanned_no_cutoff (rows : list row) : scanned None rows = rows.
Proof.
  induction rows as [|r rest IH]; simpl; [reflexivity|].
  destruct (get r "_timestamp"); now rewrite IH.
Qed.

(** ** Comparisons *)

Lemma num_lt_spec (x y : Q) : num_lt x y = true <-> (x < y)%Q.
Proof. unfold num_lt, Qlt. apply Z.ltb_lt. Qed.

Lemma num_ge_spec (x y : Q) : num_ge x y = true <-> (y <= x)%Q.
Proof. unfold num_ge. apply Qle_bool_iff. Qed.

Lemma num_lt_ge (x y : Q) : num_lt x y = negb (num_ge x y).
Proof.
  unfold num_lt, num_ge, Qle_bool. rewrite Z.leb_antisym.
  now rewrite negb_involutive.
Qed.

(** ** Cutoff *)

Lemma raw_fetch_fst (api : string -> list row) (run_id : string)
      (start_time : option Q) :
  fst (WandbFetch.fetch_run_data api run_id start_time)
  = WandbFetch.scan_history_loop start_time (api (run_path run_id)) [].
Proof. reflexivity. Qed.

Lemma db_fetch_fst (api : string -> list row) (run_id : string)
      (start_time : option Q) :
  fst (DbWandbFetch.fetch_run_data api run_id start_time)
  = DbWandbFetch.scan_history_loop run_id start_time
                                   (api (run_path run_id)) [].
Proof. reflexivity. Qed.

Lemma db_fetch_scanned (api : string -> list row) (run_id : string)
      (start_time : option Q) :
  fst (DbWandbFetch.fetch_run_data api run_id start_time)
  = flat_map (row_records run_id)
             (scanned start_time (api (run_path run_id))).
Proof. rewrite db_fetch_fst. apply db_loop_scanned. Qed.

Lemma below_head (ts : Q) (l : list Q) :
  descending (ts :: l) -> Forall (fun x => (x < ts)%Q) l.
Proof.
  intros H. apply Sorted_extends in H; [exact H|].
  intros a b c Hab Hbc. eapply Qlt_trans; eassumption.
Qed.

Lemma timestamps_In (rows : list row) (r : row) (ts : Q) :
  In r rows -> get r "_timestamp" = Some ts -> In ts (timestamps rows).
Proof.
  intros Hin Hts. unfold timestamps. apply in_flat_map.
  exists r. split; [exact Hin|]. rewrite Hts. now left.
Qed.

Lemma filter_none {A} (f : A -> bool) (l : list A) :
  (forall x, In x l -> f x = false) -> filter f l = [].
Proof.
  induction l as [|a l IH]; intros H; simpl; [reflexivity|].
  rewrite (H a (or_introl eq_refl)). apply IH.
  intros x Hx. apply H. now right.
Qed.

(** On a descending history the [break] loses nothing: the scanned rows
    that have a timestamp are the rows at or after the cutoff. *)
Lemma scanned_descending (T : Q) (rows : list row) :
  descending (timestamps rows) ->
  filter (fun r => is_not_none (get r "_timestamp")) (scanned (Some T) rows)
  = filter (at_or_after T) rows.
Proof.
  induction rows as [|r rest IH]; intros Hd; simpl; [reflexivity|].
  unfold at_or_after at 1.
  destruct (get r "_timestamp") as [ts|] eqn:Hts.
  - assert (Hd' : descending (ts :: timestamps rest)).
    { unfold timestamps in Hd; simpl in Hd. rewrite Hts in Hd. exact Hd. }
    rewrite num_lt_ge. destruct (num_ge ts T) eqn:Hge; simpl.
    + rewrite Hts. simpl. f_equal. apply IH.
      now apply Sorted_inv in Hd'.
    + symmetry. apply filter_none. intros r' Hin.
      unfold at_or_after. destruct (get r' "_timestamp") as [ts'|] eqn:Hts';
        [|reflexivity].
      apply Bool.not_true_is_false. intros Hge'. apply num_ge_spec in Hge'.
      assert (Hlt : (ts' < ts)%Q).
      { pose proof (below_head _ _ Hd') as Hall.
        rewrite Forall_forall in Hall. apply Hall.
        eapply timestamps_In; eassumption. }
      assert (Hge0 : num_ge ts T = true).
      { apply num_ge_spec. apply Qlt_le_weak.
        eapply Qle_lt_trans; eassumption. }
      congruence.
  - simpl. rewrite Hts. simpl. apply IH.
    unfold timestamps in Hd; simpl in Hd. now rewrite Hts in Hd.
Qed.

Lemma row_records_timestamped (run_id : string) (l : list row) :
  flat_map (row_records run_id) l
  = flat_map (row_records run_id)
             (filter (fun r => is_not_none (get r "_timestamp")) l).
Proof.
  induction l as [|r l IH]; simpl; [reflexivity|].
  destruct (get r "_timestamp") as [ts|] eqn:Hts; simpl.
  - now rewrite IH.
  - unfold row_records at 1. rewrite Hts. exact IH.
Qed.

(** ** Rows without a timestamp *)

Lemma raw_loop_skip (start_time : option Q) (pre post : list row) (r : row)
      (acc : list row) :
  get r "_timestamp" = None ->
  WandbFetch.scan_history_loop start_time (pre ++ r :: post) acc
  = WandbFetch.scan_history_loop start_time (pre ++ post) acc.
Proof.
  intros Hr. revert acc.
  induction pre as [|p pre IH]; intros acc; simpl.
  - now rewrite Hr.
  - destruct (get p "_timestamp") as [ts|]; [|apply IH].
    destruct (match start_time with
              | Some st => num_lt ts st
              | None => false
              end);
      [reflexivity|apply IH].
Qed.

Lemma db_loop_skip (run_id : string) (start_time : option Q)
      (pre post : list row) (r : row) (acc : list filtered_row) :
  get r "_timestamp" = None ->
  DbWandbFetch.scan_history_loop run_id start_time (pre ++ r :: post) acc
  = DbWandbFetch.scan_history_loop run_id start_time (pre ++ post) acc.
Proof.
  intros Hr. revert acc.
  induction pre as [|p pre IH]; intros acc; simpl.
  - now rewrite Hr.
  - destruct (get p "_timestamp") as [ts|]; [|apply IH].
    destruct (match start_time with
              | Some st => num_lt ts st
              | None => false
              end);
      [reflexivity|].
    destruct (all_populated (fill_row run_id ts p)); apply IH.
Qed.

(** ** Filling one row *)

Ltac split_item k v :=
  unfold scan_item, populating, recognized_key; simpl fst; simpl snd;
  destruct (startswith k raw_scores_prefix) eqn:?,
           (startswith k losses_prefix) eqn:?,
           (startswith k top1_recalls_prefix) eqn:?,
           (startswith k top3_recalls_prefix) eqn:?,
           v as [?x|]; simpl.

Lemma scan_item_skip (fr : filtered_row) (item : string * value) :
  populating item = false -> scan_item fr item = fr.
Proof.
  destruct item as [k v]. split_item k v; intros H;
    reflexivity || discriminate.
Qed.

Lemma scan_item_miner (fr : filtered_row) (item : string * value) :
  populating item = true ->
  miner_id (scan_item fr item) = extract_miner_id (fst item).
Proof.
  destruct item as [k v]. split_item k v; intros H;
    reflexivity || discriminate.
Qed.

Lemma scan_item_fields (fr : filtered_row) (k : string) (v : value) :
  let fr' := scan_item fr (k, v) in
  run_name fr' = run_name fr /\ timestamp fr' = timestamp fr
  /\ sourced raw_scores_prefix [(k, v)] (score fr) (score fr')
  /\ sourced losses_prefix [(k, v)] (loss fr) (loss fr')
  /\ sourced top1_recalls_prefix [(k, v)] (top1_recall fr) (top1_recall fr')
  /\ sourced top3_recalls_prefix [(k, v)] (top3_recall fr) (top3_recall fr').
Proof.
  split_item k v; repeat split; try (left; reflexivity);
    right; exists k, x; (split; [now left|split; [assumption|reflexivity]]).
Qed.

Lemma sourced_app (p : string) (l : row) (item : string * value)
      (v0 v1 v2 : value) :
  sourced p l v0 v1 -> sourced p [item] v1 v2 -> sourced p (l ++ [item]) v0 v2.
Proof.
  intros H1 [->|(k & x & Hin & Hp & ->)].
  - destruct H1 as [->|(k & x & Hin & Hp & ->)]; [now left|].
    right. exists k, x. split; [apply in_or_app; now left|now split].
  - right. exists k, x. split; [apply in_or_app; now right|now split].
Qed.

Lemma fold_fields (r : row) (fr0 : filtered_row) :
  let fr := fold_left scan_item r fr0 in
  run_name fr = run_name fr0 /\ timestamp fr = timestamp fr0
  /\ sourced raw_scores_prefix r (score fr0) (score fr)
  /\ sourced losses_prefix r (loss fr0) (loss fr)
  /\ sourced top1_recalls_prefix r (top1_recall fr0) (top1_recall fr)
  /\ sourced top3_recalls_prefix r (top3_recall fr0) (top3_recall fr).
Proof.
  induction r as [|[k v] l IH] using rev_ind; cbv zeta in *.
  - repeat split; now left.
  - rewrite fold_left_app; cbn [fold_left].
    destruct IH as (Hn & Ht & H1 & H2 & H3 & H4).
    destruct (scan_item_fields (fold_left scan_item l fr0) k v)
      as (Hn' & Ht' & H1' & H2' & H3' & H4').
    split; [congruence|]. split; [congruence|].
    repeat split; eapply sourced_app; eassumption.
Qed.

Lemma fold_skip (post : row) (fr : filtered_row) :
  (forall item, In item post -> populating item = false) ->
  fold_left scan_item post fr = fr.
Proof.
  revert fr; induction post as [|item post IH]; intros fr H; simpl;
    [reflexivity|].
  rewrite scan_item_skip by (apply H; now left).
  apply IH. intros i Hi. apply H. now right.
Qed.

(** The last populating item of the row decides [miner_id]. *)
Lemma fold_miner (pre post : row) (item : string * value)
      (fr0 : filtered_row) :
  populating item = true ->
  (forall i, In i post -> populating i = false) ->
  miner_id (fold_left scan_item (pre ++ item :: post) fr0)
  = extract_miner_id (fst item).
Proof.
  intros Hitem Hpost. rewrite fold_left_app; simpl.
  rewrite fold_skip by exact Hpost. now apply scan_item_miner.
Qed.

Lemma last_populating (r : row) :
  (forall i, In i r -> populating i = false)
  \/ exists pre item post,
       r = pre ++ item :: post /\ populating item = true
       /\ forall i, In i post -> populating i = false.
Proof.
  induction r as [|a r [IH|(pre & item & post & -> & Hi & Hp)]].
  - left. intros i [].
  - destruct (populating a) eqn:Ha.
    + right. exists [], a, r. now repeat split.
    + left. intros i [<-|Hin]; [exact Ha|now apply IH].
  - right. exists (a :: pre), item, post. now repeat split.
Qed.

Lemma all_populated_spec (fr : filtered_row) :
  all_populated fr = true ->
  exists s l t1 t3,
    score fr = Some s /\ loss fr = Some l
    /\ top1_recall fr = Some t1 /\ top3_recall fr = Some t3.
Proof.
  unfold all_populated; simpl.
  destruct (score fr) as [s|], (loss fr) as [l|],
           (top1_recall fr) as [t1|], (top3_recall fr) as [t3|];
    simpl; try discriminate.
  intros _. now exists s, l, t1, t3.
Qed.

Lemma row_records_inv (run_id : string) (r : row) (fr : filtered_row) :
  In fr (row_records run_id r) ->
  exists ts, get r "_timestamp" = Some ts
             /\ fr = fill_row run_id ts r /\ all_populated fr = true.
Proof.
  unfold row_records. destruct (get r "_timestamp") as [ts|]; [|intros []].
  cbv zeta. destruct (all_populated (fill_row run_id ts r)) eqn:Hall;
    [|intros []].
  intros [<-|[]]. exists ts. now repeat split.
Qed.

Lemma sourced_from_none (p : string) (r : row) (x : Q) :
  sourced p r None (Some x) ->
  exists k, In (k, Some x) r /\ startswith k p = true.
Proof.
  intros [H|(k & y & Hin & Hp & H)]; [discriminate|].
  injection H as ->. now exists k.
Qed.

(** ** The cutoff seen on the records *)

Lemma fill_row_timestamp (run_id : string) (ts : Q) (r : row) :
  timestamp (fill_row run_id ts r) = Some ts.
Proof.
  unfold fill_row.
  destruct (fold_fields r (mk_filtered_row run_id None (Some ts)
                                           None None None None))
    as (_ & Ht & _).
  exact Ht.
Qed.

Lemma row_records_cutoff (run_id : string) (T : Q) (r : row) :
  filter (record_at_or_after T) (row_records run_id r)
  = if at_or_after T r then row_records run_id r else [].
Proof.
  unfold row_records, at_or_after.
  destruct (get r "_timestamp") as [ts|]; [|reflexivity]. cbv zeta.
  destruct (all_populated (fill_row run_id ts r)); simpl.
  - unfold record_at_or_after. rewrite fill_row_timestamp.
    now destruct (num_ge ts T).
  - now destruct (num_ge ts T).
Qed.

Lemma flat_map_cutoff (run_id : string) (T : Q) (rows : list row) :
  filter (record_at_or_after T) (flat_map (row_records run_id) rows)
  = flat_map (row_records run_id) (filter (at_or_after T) rows).
Proof.
  induction rows as [|r rows IH]; simpl; [reflexivity|].
  rewrite filter_app, IH, row_records_cutoff.
  now destruct (at_or_after T r).
Qed.

(** C6.  On a history whose timestamps are strictly descending, both
    fetchers called with cutoff [T] return what the rows with a timestamp
    at or after [T] give, in stream order: the first fetcher those rows
    themselves, the second the records it builds from them, which are the
    records of the fetch without cutoff whose timestamp is at or after [T].
    A row is kept by the first fetcher exactly when it is in the history and
    its timestamp [ts] satisfies [T <= ts], so a row at [T] is kept and
    every older row is left out. *)
Theorem cutoff_correct (api : string -> list row) (run_id : string) (T : Q) :
  descending (timestamps (api (run_path run_id))) ->
  fst (WandbFetch.fetch_run_data api run_id (Some T))
  = filter (at_or_after T) (api (run_path run_id))
  /\ fst (DbWandbFetch.fetch_run_data api run_id (Some T))
     = flat_map (row_records run_id)
                (filter (at_or_after T) (api (run_path run_id)))
  /\ fst (DbWandbFetch.fetch_run_data api run_id (Some T))
     = filter (record_at_or_after T)
              (fst (DbWandbFetch.fetch_run_data api run_id None))
  /\ (forall r, In r (fst (WandbFetch.fetch_run_data api run_id (Some T)))
                <-> In r (api (run_path run_id))
                    /\ exists ts, get r "_timestamp" = Some ts /\ (T <= ts)%Q).
Proof.
  intros Hd.
  assert (H1 : fst (WandbFetch.fetch_run_data api run_id (Some T))
               = filter (at_or_after T) (api (run_path run_id))).
  { rewrite raw_fetch_fst, raw_loop_scanned. now apply scanned_descending. }
  assert (H2 : fst (DbWandbFetch.fetch_run_data api run_id (Some T))
               = flat_map (row_records run_id)
                          (filter (at_or_after T) (api (run_path run_id)))).
  { rewrite db_fetch_scanned, row_records_timestamped.
    now rewrite scanned_descending. }
  split; [exact H1|split; [exact H2|split]].
  - rewrite H2, (db_fetch_scanned api run_id None), scanned_no_cutoff.
    symmetry. apply flat_map_cutoff.
  - intros r. rewrite H1, filter_In. unfold at_or_after.
    split; intros [Hin H]; (split; [exact Hin|]).
    + destruct (get r "_timestamp") as [ts|]; [|discriminate].
      exists ts. split; [reflexivity|]. now apply num_ge_spec.
    + destruct H as [ts [-> Hle]]. now apply num_ge_spec.
Qed.

Lemma cutoff_correct_witness :
  fst (WandbFetch.fetch_run_data (api_r1 straddling_rows) "r1" (Some 200%Q))
  = filter (at_or_after 200%Q) (api_r1 straddling_rows (run_path "r1"))
  /\ fst (DbWandbFetch.fetch_run_data (api_r1 straddling_rows) "r1"
                                      (Some 200%Q))
     = flat_map (row_records "r1")
                (filter (at_or_after 200%Q)
                        (api_r1 straddling_rows (run_path "r1")))
  /\ fst (DbWandbFetch.fetch_run_data (api_r1 straddling_rows) "r1"
                                      (Some 200%Q))
     = filter (record_at_or_after 200%Q)
              (fst (DbWandbFetch.fetch_run_data (api_r1 straddling_rows)
                                                "r1" None))
  /\ (forall r,
         In r (fst (WandbFetch.fetch_run_data (api_r1 straddling_rows) "r1"
                                              (Some 200%Q)))
         <-> In r (api_r1 straddling_rows (run_path "r1"))
             /\ exists ts, get r "_timestamp" = Some ts /\ (200 <= ts)%Q).
Proof.
  apply (cutoff_correct (api_r1 straddling_rows) "r1" 200%Q).
  unfold descending. simpl. repeat constructor.
Defined.

(** C9.  A row whose ['_timestamp'] is absent or null is passed over by both
    fetchers, with or without a cutoff: the result is the one obtained from
    the history with that row taken out, so the row gives no record and does
    not end the scan. *)
Theorem null_timestamp_row_skipped
        (api api' : string -> list row) (run_id : string)
        (start_time : option Q) (pre post : list row) (r : row) :
  get r "_timestamp" = None ->
  api (run_path run_id) = pre ++ r :: post ->
  api' (run_path run_id) = pre ++ post ->
  fst (WandbFetch.fetch_run_data api run_id start_time)
  = fst (WandbFetch.fetch_run_data api' run_id start_time)
  /\ fst (DbWandbFetch.fetch_run_data api run_id start_time)
     = fst (DbWandbFetch.fetch_run_data api' run_id start_time).
Proof.
  intros Hr Ha Ha'.
  rewrite !raw_fetch_fst, !db_fetch_fst, Ha, Ha'.
  split; [now apply raw_loop_skip | now apply db_loop_skip].
Qed.

Lemma null_timestamp_row_skipped_witness :
  fst (WandbFetch.fetch_run_data
         (api_r1 ([complete_row_at 300%Q]
                    ++ untimed_row
                    :: [complete_row_at 200%Q; complete_row_at 100%Q]))
         "r1" (Some 200%Q))
  = fst (WandbFetch.fetch_run_data (api_r1 straddling_rows)
                                   "r1" (Some 200%Q))
  /\ fst (DbWandbFetch.fetch_run_data
            (api_r1 ([complete_row_at 300%Q]
                       ++ untimed_row
                       :: [complete_row_at 200%Q; complete_row_at 100%Q]))
            "r1" (Some 200%Q))
     = fst (DbWandbFetch.fetch_run_data (api_r1 straddling_rows)
                                        "r1" (Some 200%Q)).
Proof.
  apply (null_timestamp_row_skipped
           (api_r1 ([complete_row_at 300%Q]
                      ++ untimed_row
                      :: [complete_row_at 200%Q; complete_row_at 100%Q]))
           (api_r1 straddling_rows)
           "r1" (Some 200%Q) [complete_row_at 300%Q]
           [complete_row_at 200%Q; complete_row_at 100%Q]
           untimed_row); reflexivity.
Defined.

(** The straddling history at cutoff 200: the rows at 300 and 200 are kept,
    the row at 100 is not. *)
Example cutoff_straddling :
  fst (WandbFetch.fetch_run_data (api_r1 straddling_rows) "r1" (Some 200%Q))
  = [complete_row_at 300%Q; complete_row_at 200%Q]
  /\ map timestamp
         (fst (DbWandbFetch.fetch_run_data (api_r1 straddling_rows) "r1"
                                           (Some 200%Q)))
     = [Some 300%Q; Some 200%Q].
Proof. split; vm_compute; reflexivity. Qed.

(** ** Records and rows *)

(** The concrete rows are dictionaries: their keys are pairwise distinct. *)
Lemma concrete_rows_wf :
  Forall wf_row
         ([mixed_miners_row; bare_keys_row; trailing_null_row;
           scenario_single_row; untimed_row]
            ++ scenario_rows ++ scenario_rows_literal ++ straddling_rows).
Proof.
  unfold wf_row.
  repeat (apply Forall_cons || apply Forall_nil);
    repeat (apply NoDup_cons || apply NoDup_nil);
    simpl; intuition discriminate.
Qed.

(** C1, as the code has it.  Every record the second fetcher returns was
    built from one row of the history that has a timestamp: it carries the
    run id and that timestamp, and each of its four metric fields is a
    non-null value which that row binds to a key of the matching family,
    whichever miner the key names.  When all populating keys of the row name
    one miner [m], the record's [miner_id] is [m]. *)
Theorem emitted_record_complete
        (api : string -> list row) (run_id : string) (start_time : option Q)
        (fr : filtered_row) :
  In fr (fst (DbWandbFetch.fetch_run_data api run_id start_time)) ->
  exists (r : row) (ts s l t1 t3 : Q),
    In r (api (run_path run_id))
    /\ get r "_timestamp" = Some ts
    /\ run_name fr = run_id /\ timestamp fr = Some ts
    /\ score fr = Some s /\ loss fr = Some l
    /\ top1_recall fr = Some t1 /\ top3_recall fr = Some t3
    /\ (exists k, In (k, Some s) r /\ startswith k raw_scores_prefix = true)
    /\ (exists k, In (k, Some l) r /\ startswith k losses_prefix = true)
    /\ (exists k, In (k, Some t1) r
                  /\ startswith k top1_recalls_prefix = true)
    /\ (exists k, In (k, Some t3) r
                  /\ startswith k top3_recalls_prefix = true)
    /\ (forall m, (forall i, In i r -> populating i = true ->
                             extract_miner_id (fst i) = Some m) ->
                  miner_id fr = Some m).
Proof.
  rewrite db_fetch_scanned. intros Hin.
  apply in_flat_map in Hin. destruct Hin as (r & Hr & Hfr).
  apply scanned_incl in Hr.
  apply row_records_inv in Hfr. destruct Hfr as (ts & Hts & -> & Hall).
  destruct (all_populated_spec _ Hall) as (s & l & t1 & t3 & Hs & Hl & H1 & H3).
  destruct (fold_fields r (mk_filtered_row run_id None (Some ts)
                                           None None None None))
    as (Hn & Ht & S1 & S2 & S3 & S4).
  fold (fill_row run_id ts r) in Hn, Ht, S1, S2, S3, S4. simpl in *.
  rewrite Hs in S1. rewrite Hl in S2. rewrite H1 in S3. rewrite H3 in S4.
  exists r, ts, s, l, t1, t3.
  repeat (split; [first [assumption | now apply sourced_from_none]|]).
  intros m Hm.
  destruct (last_populating r) as [Hnone|(pre & item & post & -> & Hi & Hp)].
  - exfalso. apply sourced_from_none in S1. destruct S1 as (k & Hk & Hpre).
    specialize (Hnone _ Hk). unfold populating, recognized_key in Hnone.
    simpl in Hnone. rewrite Hpre in Hnone. discriminate.
  - unfold fill_row. rewrite fold_miner by assumption.
    apply Hm; [apply in_or_app; right; now left|exact Hi].
Qed.

Lemma emitted_record_complete_witness :
  exists (r : row) (ts s l t1 t3 : Q),
    In r (api_r1 [scenario_single_row] (run_path "r1"))
    /\ get r "_timestamp" = Some ts
    /\ run_name scenario_record = "r1" /\ timestamp scenario_record = Some ts
    /\ score scenario_record = Some s /\ loss scenario_record = Some l
    /\ top1_recall scenario_record = Some t1
    /\ top3_recall scenario_record = Some t3
    /\ (exists k, In (k, Some s) r /\ startswith k raw_scores_prefix = true)
    /\ (exists k, In (k, Some l) r /\ startswith k losses_prefix = true)
    /\ (exists k, In (k, Some t1) r
                  /\ startswith k top1_recalls_prefix = true)
    /\ (exists k, In (k, Some t3) r
                  /\ startswith k top3_recalls_prefix = true)
    /\ (forall m, (forall i, In i r -> populating i = true ->
                             extract_miner_id (fst i) = Some m) ->
                  miner_id scenario_record = Some m).
Proof.
  apply (emitted_record_complete (api_r1 [scenario_single_row]) "r1" None
                                 scenario_record).
  vm_compute. left. reflexivity.
Defined.

(** C1 refuted as stated: a row whose four metric keys name miners 1, 2, 3
    and 4 gives a record, filed under miner 4, and a row whose metric keys
    have no [.<digits>] suffix gives a record whose [miner_id] is null. *)
Lemma emitted_record_complete_counterexample :
  fst (DbWandbFetch.fetch_run_data (api_r1 [mixed_miners_row]) "r1" None)
  = [mk_filtered_row "r1" (Some 4%Z) (Some 100%Q) (Some 0.9%Q) (Some 0.2%Q)
                     (Some 0.5%Q) (Some 0.8%Q)]
  /\ map (fun i => extract_miner_id (fst i))
         (filter populating mixed_miners_row)
     = [Some 1%Z; Some 2%Z; Some 3%Z; Some 4%Z]
  /\ fst (DbWandbFetch.fetch_run_data (api_r1 [bare_keys_row]) "r1" None)
     = [mk_filtered_row "r1" None (Some 100%Q) (Some 0.9%Q) (Some 0.2%Q)
                        (Some 0.5%Q) (Some 0.8%Q)].
Proof. repeat split; vm_compute; reflexivity. Qed.

(** C2, as the code has it.  The four rows of the scenario, one metric of
    miner 7 each, give no record, since no row populates all four fields;
    one row carrying the four metrics gives exactly the record of the
    scenario. *)
Theorem scenario_r1 :
  DbWandbFetch.fetch_run_data (api_r1 scenario_rows) "r1" None = ([], "r1")
  /\ DbWandbFetch.fetch_run_data (api_r1 [scenario_single_row]) "r1" None
     = ([scenario_record], "r1").
Proof. split; vm_compute; reflexivity. Qed.

(** C2 refuted as stated: on the four rows of the scenario the fetcher
    does not return the record, whether the keys are spelled as in the
    specification or with the prefixes the code recognizes. *)
Lemma scenario_r1_counterexample :
  fst (DbWandbFetch.fetch_run_data (api_r1 scenario_rows) "r1" None) = []
  /\ fst (DbWandbFetch.fetch_run_data (api_r1 scenario_rows_literal)
                                      "r1" None) = []
  /\ fst (DbWandbFetch.fetch_run_data (api_r1 scenario_rows) "r1" None)
     <> [scenario_record].
Proof. repeat split; vm_compute; try reflexivity. discriminate. Qed.

(** C10, as the code has it.  The second fetcher returns, in order, what
    each scanned row gives, and a row gives at most one record, however many
    miners its keys name; the record's [miner_id] is the one extracted from
    the last populating item of the row: the last key of a recognized family
    whose value is not null. *)
Theorem one_record_per_row
        (api : string -> list row) (run_id : string) (start_time : option Q) :
  fst (DbWandbFetch.fetch_run_data api run_id start_time)
  = flat_map (row_records run_id)
             (scanned start_time (api (run_path run_id)))
  /\ (forall r, (List.length (row_records run_id r) <= 1)%nat)
  /\ (forall r fr pre item post,
         In fr (row_records run_id r) ->
         r = pre ++ item :: post ->
         populating item = true ->
         (forall i, In i post -> populating i = false) ->
         miner_id fr = extract_miner_id (fst item)).
Proof.
  split; [apply db_fetch_scanned|split].
  - intros r. unfold row_records.
    destruct (get r "_timestamp") as [ts|]; simpl; [|lia].
    destruct (all_populated (fill_row run_id ts r)); simpl; lia.
  - intros r fr pre item post Hfr -> Hi Hp.
    apply row_records_inv in Hfr. destruct Hfr as (ts & _ & -> & _).
    unfold fill_row. now apply fold_miner.
Qed.

Lemma one_record_per_row_witness :
  miner_id (mk_filtered_row "r1" (Some 1%Z) (Some 100%Q) (Some 0.9%Q)
                            (Some 0.2%Q) (Some 0.5%Q) (Some 0.8%Q))
  = extract_miner_id "TextEmbeddingSynapse_top3_recalls.1".
Proof.
  apply (proj2 (proj2 (one_record_per_row (api_r1 [trailing_null_row])
                                          "r1" None))
               trailing_null_row _
               (firstn 4 trailing_null_row)
               ("TextEmbeddingSynapse_top3_recalls.1", Some 0.8%Q)
               [("TextEmbeddingSynapse_raw_scores.2", None)]).
  - vm_compute. left. reflexivity.
  - reflexivity.
  - reflexivity.
  - intros i [<-|[]]. reflexivity.
Defined.

(** C10 refuted as stated: after a complete row for miner 1, a key of a
    recognized family naming miner 2 but bound to [None] is the last
    recognized key of the row, and the record stays under miner 1. *)
Lemma one_record_per_row_counterexample :
  fst (DbWandbFetch.fetch_run_data (api_r1 [trailing_null_row]) "r1" None)
  = [mk_filtered_row "r1" (Some 1%Z) (Some 100%Q) (Some 0.9%Q) (Some 0.2%Q)
                     (Some 0.5%Q) (Some 0.8%Q)]
  /\ last_recognized_key trailing_null_row
     = Some "TextEmbeddingSynapse_raw_scores.2"
  /\ extract_miner_id "TextEmbeddingSynapse_raw_scores.2" = Some 2%Z.
Proof. repeat split; vm_compute; reflexivity. Qed.

(** ** The publisher *)

Section PublisherFacts.
Variable client : Type.
Variable put_records :
  client -> list kinesis_record -> string -> put_outcome * client.

Local Abbreviation attempt := (attempt client put_records).
Local Abbreviation rounds := (put_records_rounds client put_records).
Local Abbreviation publish := (put_records_to_kinesis client put_records).

Lemma put_batches_app (t t' : list event) :
  put_batches (t ++ t') = put_batches t ++ put_batches t'.
Proof.
  induction t as [|[] t IH]; simpl; try rewrite IH; reflexivity.
Qed.

Lemma sleeps_app (t t' : list event) :
  sleeps (t ++ t') = sleeps t ++ sleeps t'.
Proof.
  induction t as [|[] t IH]; simpl; try rewrite IH; reflexivity.
Qed.

Lemma rejected_code (e : result_entry) :
  rejected e = true -> exists code, ErrorCode e = Some code.
Proof.
  unfold rejected. destruct (ErrorCode e) as [code|]; [|discriminate].
  intros _. now exists code.
Qed.

(** The [enumerate] loop picks the records at the rejected positions. *)
Lemma collect_failed_select (rej : nat -> bool)
      (entries : list result_entry) :
  forall (pre tl : list kinesis_record) (codes : list string)
         (failed : list kinesis_record),
    List.length entries = List.length tl ->
    (forall j e, nth_error entries j = Some e ->
                 rej (List.length pre + j)%nat = rejected e) ->
    exists codes',
      collect_failed (pre ++ tl) (List.length pre) entries codes failed
      = inr (codes', failed ++ select_from rej (List.length pre) tl).
Proof.
  induction entries as [|e rest IH]; intros pre tl codes failed Hlen Hrej.
  - destruct tl; [|discriminate]. simpl. exists codes.
    now rewrite app_nil_r.
  - destruct tl as [|r tl]; [discriminate|]. simpl in Hlen.
    injection Hlen as Hlen.
    assert (Hhead : rej (List.length pre) = rejected e).
    { rewrite <- (Hrej 0%nat e eq_refl). f_equal. lia. }
    assert (Htail : forall j e', nth_error rest j = Some e' ->
              rej (List.length (pre ++ [r]) + j)%nat = rejected e').
    { intros j e' Hj. rewrite <- (Hrej (S j) e' Hj). f_equal.
      rewrite length_app. simpl. lia. }
    assert (Hshape : pre ++ r :: tl = (pre ++ [r]) ++ tl)
      by now rewrite <- app_assoc.
    assert (Hnext : S (List.length pre) = List.length (pre ++ [r]))
      by (rewrite length_app; simpl; lia).
    simpl. rewrite Hhead. fold (rejected e).
    destruct (rejected e) eqn:He; simpl.
    + destruct (rejected_code e He) as [code Hcode]. rewrite Hcode.
      rewrite nth_error_app2 by lia. rewrite Nat.sub_diag. simpl.
      rewrite Hshape, Hnext.
      destruct (IH (pre ++ [r]) tl (codes ++ [code]) (failed ++ [r])
                   Hlen Htail) as [codes' ->].
      exists codes'. now rewrite <- app_assoc.
    + rewrite Hshape, Hnext.
      destruct (IH (pre ++ [r]) tl codes failed Hlen Htail) as [codes' ->].
      now exists codes'.
Qed.

Lemma select_all (i : nat) (batch : list kinesis_record) :
  select_from (fun _ => true) i batch = batch.
Proof.
  revert i; induction batch as [|r b IH]; intros i; simpl;
    [reflexivity|now rewrite IH].
Qed.

(** *** One attempt *)

Lemma attempt_raised (c c' : client) (batch : list kinesis_record)
      (stream_name e : string) :
  put_records c batch stream_name = (PutRaised e, c') ->
  attempt batch stream_name c
  = (inr (batch, e), c', [EvPutRecords batch stream_name]).
Proof.
  intros H. unfold DbWandbFetch.attempt, bind, call_put_records.
  rewrite H. reflexivity.
Qed.

Lemma attempt_rejected (c c' : client) (batch : list kinesis_record)
      (stream_name : string) (resp : put_response) (rej : nat -> bool) :
  put_records c batch stream_name = (PutReturned resp, c') ->
  (FailedRecordCount resp > 0)%Z ->
  List.length (Records resp) = List.length batch ->
  (forall i e, nth_error (Records resp) i = Some e -> rej i = rejected e) ->
  exists msg,
    attempt batch stream_name c
    = (inr (records_at rej batch, msg), c',
       [EvPutRecords batch stream_name]).
Proof.
  intros H Hpos Hlen Hrej.
  unfold DbWandbFetch.attempt, bind, call_put_records, lift, ret.
  rewrite H. simpl.
  assert (Hc : (FailedRecordCount resp >? 0)%Z = true)
    by (apply Z.gtb_lt; lia).
  rewrite Hc.
  destruct (collect_failed_select rej (Records resp) [] batch [] []
                                  Hlen Hrej) as [codes Hcf].
  simpl in Hcf. rewrite Hcf. simpl. eexists. reflexivity.
Qed.

Lemma attempt_accepted (c c' : client) (batch : list kinesis_record)
      (stream_name : string) (resp : put_response) :
  put_records c batch stream_name = (PutReturned resp, c') ->
  (FailedRecordCount resp <= 0)%Z ->
  attempt batch stream_name c
  = (inr ([], EmptyString), c', [EvPutRecords batch stream_name]).
Proof.
  intros H Hle.
  unfold DbWandbFetch.attempt, bind, call_put_records, lift, ret.
  rewrite H. simpl.
  assert (Hc : (FailedRecordCount resp >? 0)%Z = false).
  { apply Bool.not_true_is_false. intros Hgt. apply Z.gtb_lt in Hgt. lia. }
  rewrite Hc. reflexivity.
Qed.

(** *** The retry logic after an attempt *)

Lemma rounds_done (n : nat) (c c' : client) (batch : list kinesis_record)
      (stream_name msg : string) (rt : Z) (t : list event) :
  attempt batch stream_name c = (inr ([], msg), c', t) ->
  rounds n batch stream_name rt c = (inr tt, c', t).
Proof.
  intros H. destruct n; simpl; unfold bind; rewrite H; simpl;
    now rewrite app_nil_r.
Qed.

Lemma rounds_raise (c c' : client) (batch failed : list kinesis_record)
      (stream_name msg : string) (rt : Z) (t : list event) :
  attempt batch stream_name c = (inr (failed, msg), c', t) ->
  failed <> [] ->
  rounds 0 batch stream_name rt c
  = (inl (RuntimeError (could_not_msg rt msg)), c', t).
Proof.
  intros H Hne. simpl; unfold bind; rewrite H.
  destruct failed; [congruence|]. simpl. now rewrite app_nil_r.
Qed.

Lemma rounds_retry (n : nat) (c c' : client)
      (batch failed : list kinesis_record)
      (stream_name msg : string) (rt : Z) (t : list event) :
  attempt batch stream_name c = (inr (failed, msg), c', t) ->
  failed <> [] ->
  rounds (S n) batch stream_name rt c
  = (result_of (rounds n failed stream_name (rt - 1) c'),
     client_of (rounds n failed stream_name (rt - 1) c'),
     t ++ EvPrint (retrying_msg msg) :: EvSleep 1
       :: trace_of (rounds n failed stream_name (rt - 1) c')).
Proof.
  intros H Hne. cbn [put_records_rounds]. unfold bind at 1. rewrite H.
  destruct failed as [|f failed]; [congruence|]. cbn [truthy].
  unfold bind, print, sleep, emit, result_of, client_of, trace_of.
  destruct (rounds n (f :: failed) stream_name (rt - 1) c')
    as [[r c''] t']. reflexivity.
Qed.

Lemma rounds_retry_result (n : nat) (c c' : client)
      (batch failed : list kinesis_record)
      (stream_name msg : string) (rt : Z) (t : list event) :
  attempt batch stream_name c = (inr (failed, msg), c', t) ->
  failed <> [] ->
  result_of (rounds (S n) batch stream_name rt c)
  = result_of (rounds n failed stream_name (rt - 1) c').
Proof.
  intros H Hne. now rewrite (rounds_retry _ _ _ _ _ _ _ _ _ H Hne).
Qed.

Lemma rounds_retry_trace (n : nat) (c c' : client)
      (batch failed : list kinesis_record)
      (stream_name msg : string) (rt : Z) (t : list event) :
  attempt batch stream_name c = (inr (failed, msg), c', t) ->
  failed <> [] ->
  trace_of (rounds (S n) batch stream_name rt c)
  = t ++ EvPrint (retrying_msg msg) :: EvSleep 1
      :: trace_of (rounds n failed stream_name (rt - 1) c').
Proof.
  intros H Hne. now rewrite (rounds_retry _ _ _ _ _ _ _ _ _ H Hne).
Qed.

Lemma rounds_error (n : nat) (c c' : client) (batch : list kinesis_record)
      (stream_name : string) (rt : Z) (t : list event) (e : exn) :
  attempt batch stream_name c = (inl e, c', t) ->
  rounds n batch stream_name rt c = (inl e, c', t).
Proof.
  intros H. destruct n; simpl; unfold bind; rewrite H; reflexivity.
Qed.

(** The recursive equation of the source: after the attempt, retry with
    [retry_times - 1] when records failed and [retry_times > 0], raise
    when records failed and no retry is left, return otherwise. *)
Lemma put_records_to_kinesis_eq (batch : list kinesis_record)
      (stream_name : string) (retry_times : Z) (c : client) :
  publish batch stream_name retry_times c
  = bind (attempt batch stream_name)
         (fun '(failed_records, err_msg) =>
            if truthy failed_records then
              if (retry_times >? 0)%Z then
                bind (print client (retrying_msg err_msg))
                     (fun _ => bind (sleep client 1)
                        (fun _ => publish failed_records stream_name
                                          (retry_times - 1)))
              else raise (RuntimeError (could_not_msg retry_times err_msg))
            else ret tt) c.
Proof.
  unfold put_records_to_kinesis.
  destruct (Z.gtb_spec retry_times 0) as [Hpos|Hle].
  - replace (Z.to_nat retry_times) with (S (Z.to_nat (retry_times - 1)))
      by lia.
    reflexivity.
  - replace (Z.to_nat retry_times) with 0%nat by lia. reflexivity.
Qed.
End PublisherFacts.

Section PublisherTheorems.
Variable client : Type.
Variable put_records :
  client -> list kinesis_record -> string -> put_outcome * client.

Local Abbreviation attempt := (attempt client put_records).
Local Abbreviation rounds := (put_records_rounds client put_records).
Local Abbreviation publish := (put_records_to_kinesis client put_records).
Local Abbreviation after := (client_after client put_records).

(** Whatever happens next, an attempt logs exactly its own call. *)
Lemma attempt_trace (batch : list kinesis_record) (stream_name : string)
      (c : client) :
  trace_of (attempt batch stream_name c) = [EvPutRecords batch stream_name].
Proof.
  unfold DbWandbFetch.attempt, bind, call_put_records, lift, ret, trace_of.
  destruct (put_records c batch stream_name) as [[e|resp] c']; simpl;
    [reflexivity|].
  destruct (FailedRecordCount resp >? 0)%Z; [|reflexivity].
  destruct (collect_failed batch 0 (Records resp) [] [])
    as [x|[codes failed]]; reflexivity.
Qed.

Lemma rounds_first_put (n : nat) (batch : list kinesis_record)
      (stream_name : string) (rt : Z) (c : client) :
  exists rest,
    put_batches (trace_of (rounds n batch stream_name rt c)) = batch :: rest.
Proof.
  pose proof (attempt_trace batch stream_name c) as Ht.
  destruct (attempt batch stream_name c) as [[[e|[failed msg]] c'] t] eqn:Ha;
    unfold trace_of in Ht; simpl in Ht; subst t.
  - rewrite (rounds_error _ _ _ _ _ _ _ _ _ _ Ha). now exists [].
  - destruct failed as [|f failed].
    + rewrite (rounds_done _ _ _ _ _ _ _ _ _ _ Ha). now exists [].
    + destruct n.
      * rewrite (rounds_raise _ _ _ _ _ _ _ _ _ _ Ha) by discriminate.
        now exists [].
      * rewrite (rounds_retry_trace _ _ _ _ _ _ _ _ _ _ _ Ha)
          by discriminate.
        simpl. eexists. reflexivity.
Qed.

Lemma attempt_total_failure (batch : list kinesis_record)
      (stream_name : string) (c : client) :
  total_failure (fst (put_records c batch stream_name)) batch = true ->
  exists msg,
    attempt batch stream_name c
    = (inr (batch, msg), snd (put_records c batch stream_name),
       [EvPutRecords batch stream_name]).
Proof.
  destruct (put_records c batch stream_name) as [[e|resp] c'] eqn:H; simpl.
  - intros _. exists e. now apply attempt_raised.
  - intros Hf. apply andb_prop in Hf. destruct Hf as [Hf Hall].
    apply andb_prop in Hf. destruct Hf as [Hpos Hlen].
    apply Z.gtb_lt in Hpos. apply Nat.eqb_eq in Hlen.
    rewrite forallb_forall in Hall.
    destruct (attempt_rejected client put_records c c' batch stream_name resp
                               (fun _ => true) H) as [msg Hm];
      [lia|exact Hlen| |].
    + intros i e Hi. symmetry. apply Hall. eapply nth_error_In; eassumption.
    + exists msg. rewrite Hm. unfold records_at. now rewrite select_all.
Qed.

Lemma attempt_full_success (batch : list kinesis_record)
      (stream_name : string) (c : client) :
  full_success (fst (put_records c batch stream_name)) = true ->
  attempt batch stream_name c
  = (inr ([], EmptyString), snd (put_records c batch stream_name),
     [EvPutRecords batch stream_name]).
Proof.
  destruct (put_records c batch stream_name) as [[e|resp] c'] eqn:H; simpl;
    [discriminate|].
  intros Hz. apply Z.eqb_eq in Hz.
  apply (attempt_accepted client put_records c c' batch stream_name resp H).
  lia.
Qed.

(** A sink that fails each of the [n + 1] attempts: [n] retries, then the
    error. *)
Lemma rounds_exhaust (batch : list kinesis_record) (stream_name : string) :
  batch <> [] ->
  forall (n : nat) (c : client) (rt : Z),
    (forall i, (i <= n)%nat ->
       total_failure
         (fst (put_records (after batch stream_name i c) batch stream_name))
         batch = true) ->
    exists msg,
      result_of (rounds n batch stream_name rt c) = inl (RuntimeError msg)
      /\ put_batches (trace_of (rounds n batch stream_name rt c))
         = repeat batch (S n)
      /\ sleeps (trace_of (rounds n batch stream_name rt c))
         = repeat 1%Z n.
Proof.
  intros Hne. induction n as [|n IH]; intros c rt Hfail.
  - destruct (attempt_total_failure batch stream_name c
                (Hfail 0%nat (Nat.le_refl 0))) as [msg Ha].
    rewrite (rounds_raise _ _ _ _ _ _ _ _ _ _ Ha Hne).
    exists (could_not_msg rt msg). now repeat split.
  - destruct (attempt_total_failure batch stream_name c
                (Hfail 0%nat (Nat.le_0_l _))) as [msg Ha].
    rewrite (rounds_retry_result _ _ _ _ _ _ _ _ _ _ _ Ha Hne).
    rewrite (rounds_retry_trace _ _ _ _ _ _ _ _ _ _ _ Ha Hne).
    destruct (IH (snd (put_records c batch stream_name)) (rt - 1)%Z)
      as (msg' & Hr & Hb & Hs).
    { intros i Hi. apply (Hfail (S i)). lia. }
    exists msg'. split; [exact Hr|].
    rewrite put_batches_app, sleeps_app. simpl.
    rewrite Hb, Hs. now split.
Qed.

(** A sink that fails [j] attempts and then accepts everything: [j]
    retries, then a normal return. *)
Lemma rounds_succeed (batch : list kinesis_record) (stream_name : string) :
  batch <> [] ->
  forall (j n : nat) (c : client) (rt : Z),
    (j <= n)%nat ->
    (forall i, (i < j)%nat ->
       total_failure
         (fst (put_records (after batch stream_name i c) batch stream_name))
         batch = true) ->
    full_success
      (fst (put_records (after batch stream_name j c) batch stream_name))
    = true ->
    result_of (rounds n batch stream_name rt c) = inr tt
    /\ put_batches (trace_of (rounds n batch stream_name rt c))
       = repeat batch (S j)
    /\ sleeps (trace_of (rounds n batch stream_name rt c)) = repeat 1%Z j.
Proof.
  intros Hne. induction j as [|j IH]; intros n c rt Hle Hfail Hok.
  - rewrite (rounds_done _ _ _ _ _ _ _ _ _ _
                         (attempt_full_success batch stream_name c Hok)).
    now repeat split.
  - destruct n as [|n]; [lia|].
    destruct (attempt_total_failure batch stream_name c
                (Hfail 0%nat (Nat.lt_0_succ _))) as [msg Ha].
    rewrite (rounds_retry_result _ _ _ _ _ _ _ _ _ _ _ Ha Hne).
    rewrite (rounds_retry_trace _ _ _ _ _ _ _ _ _ _ _ Ha Hne).
    destruct (IH n (snd (put_records c batch stream_name)) (rt - 1)%Z)
      as (Hr & Hb & Hs); [lia| |exact Hok|].
    { intros i Hi. apply (Hfail (S i)). lia. }
    split; [exact Hr|].
    rewrite put_batches_app, sleeps_app. simpl.
    rewrite Hb, Hs. now split.
Qed.

(** C3.  When the call returns a response that reports failures and whose
    entries carrying an [ErrorCode] are those at the positions [rej] of the
    submitted batch, the failed records are exactly the records of the
    batch at the positions [rej], in batch order; with a retry left and
    some record rejected, they are the batch of the next call. *)
Theorem partial_failure_precision
        (c c' : client) (batch : list kinesis_record) (stream_name : string)
        (retry_times : Z) (resp : put_response) (rej : nat -> bool) :
  put_records c batch stream_name = (PutReturned resp, c') ->
  (FailedRecordCount resp > 0)%Z ->
  List.length (Records resp) = List.length batch ->
  (forall i e, nth_error (Records resp) i = Some e -> rej i = rejected e) ->
  (exists msg,
      attempt batch stream_name c
      = (inr (records_at rej batch, msg), c',
         [EvPutRecords batch stream_name]))
  /\ (records_at rej batch <> [] -> (retry_times > 0)%Z ->
      exists rest,
        put_batches (trace_of (publish batch stream_name retry_times c))
        = batch :: records_at rej batch :: rest).
Proof.
  intros H Hpos Hlen Hrej.
  destruct (attempt_rejected client put_records c c' batch stream_name resp
                             rej H Hpos Hlen Hrej) as [msg Ha].
  split; [now exists msg|].
  intros Hne Hrt. unfold put_records_to_kinesis.
  replace (Z.to_nat retry_times) with (S (Z.to_nat (retry_times - 1)))
    by lia.
  rewrite (rounds_retry_trace _ _ _ _ _ _ _ _ _ _ _ Ha Hne).
  rewrite put_batches_app. simpl.
  destruct (rounds_first_put (Z.to_nat (retry_times - 1))
              (records_at rej batch) stream_name (retry_times - 1) c')
    as [rest ->].
  now exists rest.
Qed.

(** C4.  Called on a non-empty batch with retry counter [k]: if each of
    the attempts [0..k] fails for the whole batch (the call raises or every
    record is rejected), the publisher submits the batch [k + 1] times, one
    first attempt and [k] retries each after a pause, and raises
    [RuntimeError]; if the attempts before some [j <= k] fail so and
    attempt [j] reports no failure, it returns normally after [j]
    retries. *)
Theorem retry_bound
        (batch : list kinesis_record) (stream_name : string) (k : nat)
        (c : client) :
  batch <> [] ->
  ((forall i, (i <= k)%nat ->
      total_failure
        (fst (put_records (after batch stream_name i c) batch stream_name))
        batch = true) ->
   exists msg,
     result_of (publish batch stream_name (Z.of_nat k) c)
     = inl (RuntimeError msg)
     /\ put_batches (trace_of (publish batch stream_name (Z.of_nat k) c))
        = repeat batch (S k)
     /\ sleeps (trace_of (publish batch stream_name (Z.of_nat k) c))
        = repeat 1%Z k)
  /\ (forall j, (j <= k)%nat ->
      (forall i, (i < j)%nat ->
         total_failure
           (fst (put_records (after batch stream_name i c) batch stream_name))
           batch = true) ->
      full_success
        (fst (put_records (after batch stream_name j c) batch stream_name))
      = true ->
      result_of (publish batch stream_name (Z.of_nat k) c) = inr tt
      /\ put_batches (trace_of (publish batch stream_name (Z.of_nat k) c))
         = repeat batch (S j)
      /\ sleeps (trace_of (publish batch stream_name (Z.of_nat k) c))
         = repeat 1%Z j).
Proof.
  intros Hne. unfold put_records_to_kinesis. rewrite Nat2Z.id. split.
  - now apply rounds_exhaust.
  - intros j Hle. now apply rounds_succeed.
Qed.

(** C5.  When the call itself raises, the failed records are the whole
    submitted batch; with the batch non-empty and a retry left, the next
    call submits the whole batch again. *)
Theorem transport_failure_resends_all
        (c c' : client) (batch : list kinesis_record) (stream_name e : string)
        (retry_times : Z) :
  put_records c batch stream_name = (PutRaised e, c') ->
  attempt batch stream_name c
  = (inr (batch, e), c', [EvPutRecords batch stream_name])
  /\ (batch <> [] -> (retry_times > 0)%Z ->
      exists rest,
        put_batches (trace_of (publish batch stream_name retry_times c))
        = batch :: batch :: rest).
Proof.
  intros H.
  pose proof (attempt_raised client put_records c c' batch stream_name e H)
    as Ha.
  split; [exact Ha|].
  intros Hne Hrt. unfold put_records_to_kinesis.
  replace (Z.to_nat retry_times) with (S (Z.to_nat (retry_times - 1)))
    by lia.
  rewrite (rounds_retry_trace _ _ _ _ _ _ _ _ _ _ _ Ha Hne).
  rewrite put_batches_app. simpl.
  destruct (rounds_first_put (Z.to_nat (retry_times - 1))
              batch stream_name (retry_times - 1) c') as [rest ->].
  now exists rest.
Qed.

Variable json_dumps : filtered_row -> string.
Variable hash : string -> Z.

Local Abbreviation send :=
  (send_to_kinesis client put_records json_dumps hash).
Local Abbreviation encode := (encode_row json_dumps hash).

(** C7.  On an empty batch, against a client whose response lists no entry
    for a batch without records, the publisher makes its one call with no
    record in it and returns normally: nothing is printed, no pause is
    taken, no second call is made.  This holds for every retry counter, and
    for [send_to_kinesis] on an empty frame. *)
Theorem empty_batch_noop (c : client) (stream_name : string)
        (retry_times : Z) :
  (forall resp c', put_records c [] stream_name = (PutReturned resp, c') ->
                   Records resp = []) ->
  publish [] stream_name retry_times c
  = (inr tt, snd (put_records c [] stream_name),
     [EvPutRecords [] stream_name])
  /\ send [] stream_name c
     = (inr tt, snd (put_records c [] stream_name),
        [EvPutRecords [] stream_name])
  /\ List.concat (put_batches
               (trace_of (publish [] stream_name retry_times c))) = [].
Proof.
  intros Hpos.
  assert (Hany : forall n rt,
            rounds n [] stream_name rt c
            = (inr tt, snd (put_records c [] stream_name),
               [EvPutRecords [] stream_name])).
  { intros n rt.
    destruct (put_records c [] stream_name) as [[e|resp] c'] eqn:H; simpl.
    - apply (rounds_done _ _ _ _ _ _ _ e).
      now apply attempt_raised.
    - destruct (Z_le_gt_dec (FailedRecordCount resp) 0) as [Hle|Hgt].
      + apply (rounds_done _ _ _ _ _ _ _ EmptyString).
        now apply (attempt_accepted client put_records c c' [] _ resp).
      + destruct (attempt_rejected client put_records c c' [] stream_name
                    resp (fun _ => true) H) as [msg Hm].
        * lia.
        * now rewrite (Hpos resp c' eq_refl).
        * rewrite (Hpos resp c' eq_refl). intros [|i] e He; discriminate.
        * now apply (rounds_done _ _ _ _ _ _ _ msg). }
  unfold send_to_kinesis, put_records_to_kinesis. simpl map.
  rewrite !Hany. now repeat split.
Qed.

End PublisherTheorems.

(** ** The theorems at concrete clients *)

Lemma partial_failure_precision_witness :
  (exists msg,
      attempt nat sink_rejects_second three_records "metrics" 0%nat
      = (inr (records_at (Nat.eqb 1) three_records, msg), 1%nat,
         [EvPutRecords three_records "metrics"]))
  /\ (records_at (Nat.eqb 1) three_records <> [] -> (3 > 0)%Z ->
      exists rest,
        put_batches
          (trace_of (put_records_to_kinesis nat sink_rejects_second
                                            three_records "metrics" 3 0%nat))
        = three_records :: records_at (Nat.eqb 1) three_records :: rest).
Proof.
  apply (partial_failure_precision nat sink_rejects_second 0%nat 1%nat
           three_records "metrics" 3 first_response (Nat.eqb 1)).
  - reflexivity.
  - reflexivity.
  - reflexivity.
  - intros i e He.
    do 3 (destruct i as [|i]; [injection He as <-; reflexivity|]).
    destruct i; discriminate.
Defined.

Lemma retry_bound_witness :
  (exists msg,
      result_of (put_records_to_kinesis nat sink_rejects_all three_records
                                        "metrics" (Z.of_nat 2) 0%nat)
      = inl (RuntimeError msg)
      /\ put_batches
           (trace_of (put_records_to_kinesis nat sink_rejects_all
                        three_records "metrics" (Z.of_nat 2) 0%nat))
         = repeat three_records 3
      /\ sleeps
           (trace_of (put_records_to_kinesis nat sink_rejects_all
                        three_records "metrics" (Z.of_nat 2) 0%nat))
         = repeat 1%Z 2)
  /\ (result_of (put_records_to_kinesis nat sink_down_twice three_records
                                        "metrics" (Z.of_nat 5) 0%nat)
      = inr tt
      /\ put_batches
           (trace_of (put_records_to_kinesis nat sink_down_twice
                        three_records "metrics" (Z.of_nat 5) 0%nat))
         = repeat three_records 3
      /\ sleeps
           (trace_of (put_records_to_kinesis nat sink_down_twice
                        three_records "metrics" (Z.of_nat 5) 0%nat))
         = repeat 1%Z 2).
Proof.
  split.
  - apply (proj1 (retry_bound nat sink_rejects_all three_records "metrics"
                              2 0%nat ltac:(discriminate))).
    intros i _. reflexivity.
  - apply (proj2 (retry_bound nat sink_down_twice three_records "metrics"
                              5 0%nat ltac:(discriminate)) 2%nat).
    + lia.
    + intros i Hi. destruct i as [|[|i]]; [reflexivity|reflexivity|lia].
    + reflexivity.
Defined.

Lemma transport_failure_resends_all_witness :
  attempt nat sink_down_twice three_records "metrics" 0%nat
  = (inr (three_records, "timed out"), 1%nat,
     [EvPutRecords three_records "metrics"])
  /\ (three_records <> [] -> (1 > 0)%Z ->
      exists rest,
        put_batches
          (trace_of (put_records_to_kinesis nat sink_down_twice
                                            three_records "metrics" 1 0%nat))
        = three_records :: three_records :: rest).
Proof.
  apply (transport_failure_resends_all nat sink_down_twice 0%nat 1%nat
           three_records "metrics" "timed out" 1).
  reflexivity.
Defined.

Lemma empty_batch_noop_witness :
  put_records_to_kinesis nat sink_rejects_all [] "metrics" 10 0%nat
  = (inr tt, snd (sink_rejects_all 0%nat [] "metrics"),
     [EvPutRecords [] "metrics"])
  /\ send_to_kinesis nat sink_rejects_all toy_dumps toy_hash [] "metrics"
                     0%nat
     = (inr tt, snd (sink_rejects_all 0%nat [] "metrics"),
        [EvPutRecords [] "metrics"])
  /\ List.concat
       (put_batches
          (trace_of (put_records_to_kinesis nat sink_rejects_all []
                                            "metrics" 10 0%nat))) = [].
Proof.
  apply (empty_batch_noop nat sink_rejects_all toy_dumps toy_hash 0%nat
                          "metrics" 10).
  intros resp c' H. injection H as <- _. reflexivity.
Defined.



(** The whole run against [sink_rejects_second]: the first call submits the
    three records, the retry submits the second one only. *)
Example partial_failure_run :
  put_records_to_kinesis nat sink_rejects_second three_records "metrics" 10
                         0%nat
  = (inr tt, 2%nat,
     [EvPutRecords three_records "metrics";
      EvPrint (retrying_msg
                 "Individual error codes: ProvisionedThroughputExceededException");
      EvSleep 1;
      EvPutRecords [mk_record "b" "k"] "metrics"]).
Proof. vm_compute. reflexivity. Qed.

(** The error raised when no retry is left. *)
Example exhausted_run :
  result_of (put_records_to_kinesis nat sink_down_twice three_records
                                    "metrics" 1 0%nat)
  = inl (RuntimeError "Could not put records after 0 attempts. timed out").
Proof. vm_compute. reflexivity. Qed.

(** * Further properties of the code *)

(** ** [extract_miner_id] *)

Lemma span_digits_spec (s : string) :
  forall ds tl, span_digits s = (ds, tl) ->
                s = (ds ++ tl)%string /\ all_digits ds = true.
Proof.
  induction s as [|c s IH]; simpl; intros ds tl H.
  - injection H as <- <-. now split.
  - destruct (is_digit c) eqn:Hc.
    + destruct (span_digits s) as [ds' tl'].
      injection H as <- <-.
      destruct (IH ds' tl' eq_refl) as [-> Hd].
      split; [reflexivity|]. simpl. now rewrite Hc.
    + injection H as <- <-. now split.
Qed.

Lemma match_here_spec (s g : string) :
  match_here s = Some g ->
  exists tl, s = String "."%char (g ++ tl)
             /\ g <> EmptyString /\ all_digits g = true
             /\ at_end tl = true.
Proof.
  unfold match_here. destruct s as [|c rest]; [discriminate|].
  destruct (Ascii.eqb_spec c "."%char) as [->|]; [|discriminate].
  destruct (span_digits rest) as [ds tl] eqn:Hsp.
  destruct (span_digits_spec _ _ _ Hsp) as [-> Hd].
  destruct ds as [|d ds]; [discriminate|].
  destruct (at_end tl) eqn:He; [|discriminate].
  intros H; injection H as <-. exists tl. repeat split; congruence.
Qed.

Lemma re_search_spec (s g : string) :
  re_search s = Some g ->
  exists p tl, s = (p ++ String "."%char (g ++ tl))%string
               /\ g <> EmptyString /\ all_digits g = true
               /\ at_end tl = true.
Proof.
  induction s as [|c s IH]; cbn [re_search].
  - simpl. discriminate.
  - destruct (match_here (String c s)) as [g'|] eqn:Hm.
    + intros H; injection H as ->.
      destruct (match_here_spec _ _ Hm) as (tl & Hs & Hrest).
      exists EmptyString, tl. now split.
    + intros H. destruct (IH H) as (p & tl & -> & Hrest).
      exists (String c p), tl. now split.
Qed.

Lemma is_digit_value (c : ascii) :
  is_digit c = true -> (0 <= digit_value c <= 9)%Z.
Proof.
  unfold is_digit, digit_value. cbv zeta. intros H.
  apply andb_prop in H. destruct H as [H1 H2].
  apply Nat.leb_le in H1. apply Nat.leb_le in H2. lia.
Qed.

Lemma int_acc_nonneg (s : string) :
  forall acc, (0 <= acc)%Z -> all_digits s = true -> (0 <= int_acc acc s)%Z.
Proof.
  induction s as [|c s IH]; cbn [int_acc all_digits]; intros acc Hacc Hd;
    [exact Hacc|].
  apply andb_prop in Hd. destruct Hd as [Hc Hs].
  apply IH; [|exact Hs]. pose proof (is_digit_value c Hc). lia.
Qed.

Lemma at_end_cases (tl : string) :
  at_end tl = true -> tl = EmptyString \/ tl = newline.
Proof.
  destruct tl as [|c [|c' tl]]; simpl; try discriminate.
  - now left.
  - intros H. apply Ascii.eqb_eq in H. subst c. now right.
Qed.

(** X1.  [extract_miner_id] answers a number only for a key that ends in a
    dot followed by decimal digits, possibly followed by one newline; the
    number is the one those digits spell, and it is never negative.  In
    particular a key without such an ending gives [None]. *)
Theorem extract_miner_id_sound (key : string) (m : Z) :
  extract_miner_id key = Some m ->
  exists p ds tl,
    key = (p ++ String "."%char (ds ++ tl))%string
    /\ ds <> EmptyString /\ all_digits ds = true
    /\ (tl = EmptyString \/ tl = newline)
    /\ m = int ds /\ (0 <= m)%Z.
Proof.
  unfold extract_miner_id.
  destruct (re_search key) as [g|] eqn:Hs; [|discriminate].
  intros H; injection H as <-.
  destruct (re_search_spec _ _ Hs) as (p & tl & -> & Hne & Hd & He).
  exists p, g, tl. repeat split; try assumption.
  - now apply at_end_cases.
  - unfold int. apply int_acc_nonneg; [lia|exact Hd].
Qed.

Lemma extract_miner_id_sound_witness :
  exists p ds tl,
    "TextEmbeddingSynapse_losses.42"
    = (p ++ String "."%char (ds ++ tl))%string
    /\ ds <> EmptyString /\ all_digits ds = true
    /\ (tl = EmptyString \/ tl = newline)
    /\ 42%Z = int ds /\ (0 <= 42)%Z.
Proof.
  apply (extract_miner_id_sound "TextEmbeddingSynapse_losses.42" 42).
  reflexivity.
Defined.

Lemma span_digits_newline (ds : string) :
  all_digits ds = true -> span_digits (ds ++ newline) = (ds, newline).
Proof.
  induction ds as [|c ds IH]; simpl; [reflexivity|].
  intros H. apply andb_prop in H. destruct H as [Hc Hds].
  now rewrite Hc, (IH Hds).
Qed.

Lemma at_end_before_suffix_gen (q rest : string) :
  rest <> EmptyString ->
  at_end (q ++ String "."%char rest) = false.
Proof.
  intros Hne. destruct q as [|c q]; simpl.
  - destruct rest; [congruence|reflexivity].
  - destruct q; reflexivity.
Qed.

(** X2.  A key that follows the convention [<Family>.<digits>], with no
    more digits than [int] converts, gives the number its digits spell,
    whatever the family part contains, and one newline after the digits
    changes nothing. *)
Theorem extract_miner_id_complete (family digits : string) :
  digits <> EmptyString -> all_digits digits = true ->
  (String.length digits <= int_max_str_digits)%nat ->
  extract_miner_id (family ++ String "."%char digits) = Some (int digits)
  /\ extract_miner_id (family ++ String "."%char (digits ++ newline))
     = Some (int digits).
Proof.
  intros Hne Hall _. split; [now apply extract_miner_id_convention|].
  unfold extract_miner_id.
  assert (H : re_search (family ++ String "."%char (digits ++ newline))
              = Some digits).
  { induction family as [|c f IH].
    - simpl. rewrite (span_digits_newline _ Hall).
      destruct digits; [congruence|reflexivity].
    - change ((String c f ++ String "."%char (digits ++ newline))%string)
        with (String c (f ++ String "."%char (digits ++ newline))).
      cbn [re_search].
      assert (Hm : match_here
                     (String c (f ++ String "."%char (digits ++ newline)))
                   = None).
      { unfold match_here. destruct (Ascii.eqb c "."%char); [|reflexivity].
        destruct (span_digits_stops f (digits ++ newline)) as [q Hq].
        destruct (span_digits (f ++ String "."%char (digits ++ newline)))
          as [ds tl].
        simpl in Hq. subst tl.
        rewrite at_end_before_suffix_gen by (destruct digits; discriminate).
        now destruct ds. }
      rewrite Hm. exact IH. }
  now rewrite H.
Qed.

Lemma extract_miner_id_complete_witness :
  extract_miner_id ("TextEmbeddingSynapse_raw_scores.v2"
                      ++ String "."%char "158")
  = Some (int "158")
  /\ extract_miner_id ("TextEmbeddingSynapse_raw_scores.v2"
                         ++ String "."%char ("158" ++ newline))
     = Some (int "158").
Proof.
  apply (extract_miner_id_complete "TextEmbeddingSynapse_raw_scores.v2"
                                   "158").
  - discriminate.
  - reflexivity.
  - unfold int_max_str_digits. simpl. lia.
Defined.

(** *** Reading back a printed number *)

Lemma int_acc_of_uint_acc (d : Decimal.uint) :
  forall acc : positive,
    int_acc (Zpos acc) (NilEmpty.string_of_uint d)
    = Zpos (Pos.of_uint_acc d acc).
Proof.
  induction d; intros acc;
    cbn [NilEmpty.string_of_uint int_acc Pos.of_uint_acc];
    try reflexivity; rewrite <- IHd; f_equal;
    match goal with
    | |- context [digit_value ?c] =>
        let v := eval vm_compute in (digit_value c) in
        change (digit_value c) with v
    end; lia.
Qed.

Lemma int_acc_of_uint (d : Decimal.uint) :
  int_acc 0 (NilEmpty.string_of_uint d) = Z.of_N (Pos.of_uint d).
Proof.
  induction d; cbn [NilEmpty.string_of_uint int_acc Pos.of_uint];
    try reflexivity; try exact IHd;
    cbn [Z.of_N]; rewrite <- int_acc_of_uint_acc; reflexivity.
Qed.

Lemma all_digits_of_uint (d : Decimal.uint) :
  all_digits (NilEmpty.string_of_uint d) = true.
Proof. induction d; simpl; auto. Qed.

Lemma str_nonneg (n : Z) :
  (0 <= n)%Z ->
  str n <> EmptyString /\ all_digits (str n) = true /\ int (str n) = n.
Proof.
  intros Hn. unfold str, int. destruct n as [|p|p]; [| |lia].
  - repeat split. discriminate.
  - simpl. repeat split.
    + pose proof (DecimalPos.Unsigned.to_uint_nonnil p) as Hnil.
      destruct (Pos.to_uint p); simpl; congruence.
    + apply all_digits_of_uint.
    + rewrite int_acc_of_uint, DecimalPos.Unsigned.of_to. reflexivity.
Qed.

(** X3.  A key written as a family, a dot and a miner id printed in
    decimal is read back to that miner id. *)
Theorem extract_miner_id_round_trip (family : string) (n : Z) :
  (0 <= n)%Z ->
  extract_miner_id (family ++ String "."%char (str n)) = Some n.
Proof.
  intros Hn. destruct (str_nonneg n Hn) as (Hne & Hd & Hint).
  rewrite (extract_miner_id_convention family (str n) Hne Hd).
  now rewrite Hint.
Qed.

Lemma extract_miner_id_round_trip_witness :
  extract_miner_id ("TextEmbeddingSynapse_top1_recalls"
                      ++ String "."%char (str 255))
  = Some 255%Z.
Proof.
  apply (extract_miner_id_round_trip "TextEmbeddingSynapse_top1_recalls" 255).
  lia.
Defined.

(** ** The fetchers on arbitrary histories *)

Lemma scanned_cutoff_ge (T : Q) (rows : list row) (r : row) (ts : Q) :
  In r (scanned (Some T) rows) -> get r "_timestamp" = Some ts ->
  (T <= ts)%Q.
Proof.
  induction rows as [|r0 rows IH]; simpl; [intros []|].
  destruct (get r0 "_timestamp") as [ts0|] eqn:H0.
  - destruct (num_lt ts0 T) eqn:Hlt; [intros []|].
    intros [<-|Hin] Hts; [|now apply IH].
    rewrite H0 in Hts. injection Hts as <-.
    apply num_ge_spec. rewrite num_lt_ge in Hlt.
    now destruct (num_ge ts0 T).
  - intros [<-|Hin] Hts; [congruence|now apply IH].
Qed.

(** X4.  Whatever the order of the history, a fetch with cutoff [T] never
    returns anything older than [T]: every row the first fetcher returns is
    a row of the history with a timestamp at or after [T], and every record
    the second fetcher returns has a timestamp at or after [T]. *)
Theorem cutoff_never_returns_older
        (api : string -> list row) (run_id : string) (T : Q) :
  (forall r, In r (fst (WandbFetch.fetch_run_data api run_id (Some T))) ->
             In r (api (run_path run_id))
             /\ exists ts, get r "_timestamp" = Some ts /\ (T <= ts)%Q)
  /\ (forall fr,
         In fr (fst (DbWandbFetch.fetch_run_data api run_id (Some T))) ->
         exists ts, timestamp fr = Some ts /\ (T <= ts)%Q).
Proof.
  split.
  - intros r. rewrite raw_fetch_fst, raw_loop_scanned. intros Hin.
    apply filter_In in Hin. destruct Hin as [Hin Hts].
    split; [eapply scanned_incl; eassumption|].
    destruct (get r "_timestamp") as [ts|] eqn:Hg; [|discriminate].
    exists ts. split; [reflexivity|].
    eapply scanned_cutoff_ge; eassumption.
  - intros fr. rewrite db_fetch_scanned. intros Hin.
    apply in_flat_map in Hin. destruct Hin as (r & Hr & Hfr).
    apply row_records_inv in Hfr. destruct Hfr as (ts & Hts & -> & _).
    exists ts. split; [apply fill_row_timestamp|].
    eapply scanned_cutoff_ge; eassumption.
Qed.

(** X5.  Without a cutoff the first fetcher returns exactly the rows that
    carry a non-null timestamp, in stream order; with a cutoff each fetcher
    returns an initial part of what it returns without one, so the cutoff
    only ever cuts the end of the result off. *)
Theorem cutoff_result_is_prefix
        (api : string -> list row) (run_id : string) (T : Q) :
  fst (WandbFetch.fetch_run_data api run_id None)
  = filter has_timestamp (api (run_path run_id))
  /\ (exists rest,
         fst (WandbFetch.fetch_run_data api run_id None)
         = fst (WandbFetch.fetch_run_data api run_id (Some T)) ++ rest)
  /\ (exists rest,
         fst (DbWandbFetch.fetch_run_data api run_id None)
         = fst (DbWandbFetch.fetch_run_data api run_id (Some T)) ++ rest).
Proof.
  destruct (scanned_prefix (Some T) (api (run_path run_id))) as [rest Hrest].
  split; [|split].
  - rewrite raw_fetch_fst, raw_loop_scanned, scanned_no_cutoff. reflexivity.
  - rewrite !raw_fetch_fst, !raw_loop_scanned, scanned_no_cutoff.
    exists (filter has_timestamp rest).
    fold has_timestamp. now rewrite <- filter_app, <- Hrest.
  - rewrite !db_fetch_scanned, scanned_no_cutoff.
    exists (flat_map (row_records run_id) rest).
    now rewrite <- flat_map_app, <- Hrest.
Qed.

(** X6.  The two fetchers agree on which rows they retain: for every
    history and cutoff, the records of the second fetcher are those built,
    row by row and in order, from the rows the first fetcher returns. *)
Theorem db_fetch_of_raw_fetch
        (api : string -> list row) (run_id : string)
        (start_time : option Q) :
  fst (DbWandbFetch.fetch_run_data api run_id start_time)
  = flat_map (row_records run_id)
             (fst (WandbFetch.fetch_run_data api run_id start_time)).
Proof.
  rewrite db_fetch_scanned, raw_fetch_fst, raw_loop_scanned.
  apply row_records_timestamped.
Qed.

(** ** Items the key loop passes over *)

Lemma lookup_skip (p q : row) (item : string * value) (key : string) :
  fst item <> key ->
  lookup key (p ++ item :: q) = lookup key (p ++ q).
Proof.
  intros Hne. induction p as [|[k v] p IH]; simpl.
  - destruct item as [k v]. simpl in Hne.
    destruct (String.eqb_spec k key); [congruence|reflexivity].
  - destruct (String.eqb k key); [reflexivity|exact IH].
Qed.

Lemma fill_row_skip (run_id : string) (ts : Q) (p q : row)
      (item : string * value) :
  populating item = false ->
  fill_row run_id ts (p ++ item :: q) = fill_row run_id ts (p ++ q).
Proof.
  intros H. unfold fill_row. rewrite !fold_left_app. cbn [fold_left].
  now rewrite (scan_item_skip _ _ H).
Qed.

Lemma db_loop_congr (run_id : string) (start_time : option Q)
      (pre post : list row) (r r' : row) :
  get r "_timestamp" = get r' "_timestamp" ->
  (forall ts, fill_row run_id ts r = fill_row run_id ts r') ->
  forall acc,
    DbWandbFetch.scan_history_loop run_id start_time (pre ++ r :: post) acc
    = DbWandbFetch.scan_history_loop run_id start_time
                                     (pre ++ r' :: post) acc.
Proof.
  intros Hg Hf.
  induction pre as [|p pre IH]; intros acc; simpl.
  - rewrite Hg. destruct (get r' "_timestamp") as [ts|]; [|reflexivity].
    now rewrite Hf.
  - destruct (get p "_timestamp") as [ts|]; [|apply IH].
    destruct (match start_time with
              | Some st => num_lt ts st
              | None => false
              end); [reflexivity|].
    destruct (all_populated (fill_row run_id ts p)); apply IH.
Qed.

(** X7.  Keys outside the four families, and keys of a family bound to
    [None], have no effect on the result of the second fetcher: taking such
    an item (other than ['_timestamp']) out of a row of the history leaves
    the returned records unchanged. *)
Theorem unrecognized_items_ignored
        (api api' : string -> list row) (run_id : string)
        (start_time : option Q) (pre post : list row) (p q : row)
        (item : string * value) :
  populating item = false ->
  fst item <> "_timestamp" ->
  api (run_path run_id) = pre ++ (p ++ item :: q) :: post ->
  api' (run_path run_id) = pre ++ (p ++ q) :: post ->
  fst (DbWandbFetch.fetch_run_data api run_id start_time)
  = fst (DbWandbFetch.fetch_run_data api' run_id start_time).
Proof.
  intros Hpop Hkey Ha Ha'. rewrite !db_fetch_fst, Ha, Ha'.
  apply db_loop_congr.
  - unfold get. now rewrite lookup_skip.
  - intros ts. now apply fill_row_skip.
Qed.

Lemma unrecognized_items_ignored_witness :
  fst (DbWandbFetch.fetch_run_data
         (api_r1 ([complete_row_at 300%Q]
                    ++ (firstn 2 (complete_row_at 200%Q)
                          ++ ("epoch", Some 12%Q)
                          :: skipn 2 (complete_row_at 200%Q))
                    :: [complete_row_at 100%Q]))
         "r1" None)
  = fst (DbWandbFetch.fetch_run_data
           (api_r1 ([complete_row_at 300%Q]
                      ++ (firstn 2 (complete_row_at 200%Q)
                            ++ skipn 2 (complete_row_at 200%Q))
                      :: [complete_row_at 100%Q]))
           "r1" None).
Proof.
  apply (unrecognized_items_ignored
           (api_r1 ([complete_row_at 300%Q]
                      ++ (firstn 2 (complete_row_at 200%Q)
                            ++ ("epoch", Some 12%Q)
                            :: skipn 2 (complete_row_at 200%Q))
                      :: [complete_row_at 100%Q]))
           (api_r1 ([complete_row_at 300%Q]
                      ++ (firstn 2 (complete_row_at 200%Q)
                            ++ skipn 2 (complete_row_at 200%Q))
                      :: [complete_row_at 100%Q]))
           "r1" None [complete_row_at 300%Q] [complete_row_at 100%Q]
           (firstn 2 (complete_row_at 200%Q))
           (skipn 2 (complete_row_at 200%Q))
           ("epoch", Some 12%Q)).
  - reflexivity.
  - discriminate.
  - reflexivity.
  - reflexivity.
Defined.

(** ** The four families *)

Lemma prefix_comparable (p : string) :
  forall q k, prefix p k = true -> prefix q k = true ->
              prefix p q = true \/ prefix q p = true.
Proof.
  induction p as [|a p IH]; intros q k Hp Hq.
  - left. now destruct q.
  - destruct q as [|b q]; [now right|].
    destruct k as [|c k]; [discriminate|].
    simpl in Hp, Hq.
    destruct (ascii_dec a c) as [->|]; [|discriminate].
    destruct (ascii_dec b c) as [->|]; [|discriminate].
    simpl. destruct (ascii_dec c c) as [_|]; [|congruence].
    now apply (IH q k).
Qed.

(** No key belongs to two families. *)
Lemma families_exclusive (k : string) (f g : family) :
  startswith k (family_prefix f) = true ->
  startswith k (family_prefix g) = true -> f = g.
Proof.
  unfold startswith. intros Hf Hg.
  destruct (prefix_comparable _ _ _ Hf Hg) as [H|H];
    destruct f, g; try reflexivity; vm_compute in H; discriminate.
Qed.

Ltac other_family k :=
  match goal with
  | H1 : startswith k raw_scores_prefix = true,
    H2 : startswith k losses_prefix = true |- _ =>
      discriminate (families_exclusive k Score Loss H1 H2)
  | H1 : startswith k raw_scores_prefix = true,
    H2 : startswith k top1_recalls_prefix = true |- _ =>
      discriminate (families_exclusive k Score Top1Recall H1 H2)
  | H1 : startswith k raw_scores_prefix = true,
    H2 : startswith k top3_recalls_prefix = true |- _ =>
      discriminate (families_exclusive k Score Top3Recall H1 H2)
  | H1 : startswith k losses_prefix = true,
    H2 : startswith k top1_recalls_prefix = true |- _ =>
      discriminate (families_exclusive k Loss Top1Recall H1 H2)
  | H1 : startswith k losses_prefix = true,
    H2 : startswith k top3_recalls_prefix = true |- _ =>
      discriminate (families_exclusive k Loss Top3Recall H1 H2)
  | H1 : startswith k top1_recalls_prefix = true,
    H2 : startswith k top3_recalls_prefix = true |- _ =>
      discriminate (families_exclusive k Top1Recall Top3Recall H1 H2)
  end.

(** One turn of the key loop writes the field of family [f] exactly when
    the item populates [f], and then with the item's value. *)
Lemma scan_item_family (f : family) (fr : filtered_row)
      (item : string * value) :
  family_field f (scan_item fr item)
  = if populates f item then snd item else family_field f fr.
Proof.
  destruct item as [k v]. unfold populates.
  destruct f; unfold family_prefix, family_field;
    split_item k v; try reflexivity; other_family k.
Qed.

Lemma fold_family_last (f : family) (pre post : row) (k : string) (x : Q)
      (fr0 : filtered_row) :
  startswith k (family_prefix f) = true ->
  (forall i, In i post -> populates f i = false) ->
  family_field f (fold_left scan_item (pre ++ (k, Some x) :: post) fr0)
  = Some x.
Proof.
  intros Hk Hpost. rewrite fold_left_app. cbn [fold_left].
  set (fr1 := scan_item (fold_left scan_item pre fr0) (k, Some x)).
  assert (H1 : family_field f fr1 = Some x).
  { unfold fr1. rewrite scan_item_family. unfold populates. simpl.
    now rewrite Hk. }
  clearbody fr1. revert fr1 H1.
  induction post as [|i post IH]; intros fr1 H1; simpl; [exact H1|].
  apply IH.
  - intros j Hj. apply Hpost. now right.
  - rewrite scan_item_family, (Hpost i (or_introl eq_refl)). exact H1.
Qed.

(** X8.  When a row binds several keys of one family to non-null values,
    the last one in iteration order wins: in the record the row gives, the
    field of that family is the value of the last item that populates the
    family.  This holds for each of score, loss, top1_recall and
    top3_recall. *)
Theorem last_value_of_family_wins
        (run_id : string) (f : family) (r pre post : row) (k : string)
        (x : Q) (fr : filtered_row) :
  In fr (row_records run_id r) ->
  r = pre ++ (k, Some x) :: post ->
  startswith k (family_prefix f) = true ->
  (forall i, In i post -> populates f i = false) ->
  family_field f fr = Some x.
Proof.
  intros Hfr -> Hk Hpost.
  apply row_records_inv in Hfr. destruct Hfr as (ts & _ & -> & _).
  unfold fill_row. now apply fold_family_last.
Qed.

Lemma fold_family_populated (f : family) (r : row) :
  forall fr0,
    is_not_none (family_field f (fold_left scan_item r fr0))
    = is_not_none (family_field f fr0) || has_family (family_prefix f) r.
Proof.
  induction r as [|i r IH]; intros fr0.
  - simpl. now rewrite orb_false_r.
  - cbn [fold_left]. rewrite IH, scan_item_family.
    change (has_family (family_prefix f) (i :: r))
      with (populates f i || has_family (family_prefix f) r).
    destruct (populates f i) eqn:Hp; [|reflexivity].
    unfold populates in Hp. apply andb_prop in Hp. destruct Hp as [_ Hv].
    rewrite Hv. now rewrite orb_true_r.
Qed.

Lemma all_populated_families (run_id : string) (ts : Q) (r : row) :
  all_populated (fill_row run_id ts r)
  = has_family raw_scores_prefix r && has_family losses_prefix r
    && has_family top1_recalls_prefix r && has_family top3_recalls_prefix r.
Proof.
  unfold all_populated, fill_row. cbn [forallb].
  rewrite (fold_family_populated Score), (fold_family_populated Loss),
          (fold_family_populated Top1Recall),
          (fold_family_populated Top3Recall).
  simpl. now rewrite andb_true_r, !andb_assoc.
Qed.

Lemma row_records_complete (run_id : string) (r : row) :
  List.length (row_records run_id r) = if complete_row r then 1%nat else 0%nat.
Proof.
  unfold row_records, complete_row, has_timestamp.
  destruct (get r "_timestamp") as [ts|]; [|reflexivity].
  cbv zeta. rewrite all_populated_families.
  destruct (has_family raw_scores_prefix r), (has_family losses_prefix r),
           (has_family top1_recalls_prefix r),
           (has_family top3_recalls_prefix r); reflexivity.
Qed.

Lemma row_records_timestamps (run_id : string) (r : row) :
  map timestamp (row_records run_id r)
  = if complete_row r then [get r "_timestamp"] else [].
Proof.
  pose proof (row_records_complete run_id r) as Hlen.
  unfold row_records in *. unfold complete_row, has_timestamp in *.
  destruct (get r "_timestamp") as [ts|]; [|reflexivity].
  cbv zeta in *. cbn [is_not_none andb] in *.
  destruct (all_populated (fill_row run_id ts r)); simpl in *.
  - rewrite fill_row_timestamp.
    destruct (has_family raw_scores_prefix r && has_family losses_prefix r
              && has_family top1_recalls_prefix r
              && has_family top3_recalls_prefix r);
      [reflexivity|discriminate].
  - destruct (has_family raw_scores_prefix r && has_family losses_prefix r
              && has_family top1_recalls_prefix r
              && has_family top3_recalls_prefix r);
      [discriminate|reflexivity].
Qed.

Lemma flat_map_timestamps (run_id : string) (l : list row) :
  map timestamp (flat_map (row_records run_id) l)
  = map (fun r => get r "_timestamp") (filter complete_row l).
Proof.
  induction l as [|r l IH]; simpl; [reflexivity|].
  rewrite map_app, IH, row_records_timestamps.
  now destruct (complete_row r).
Qed.

(** X9.  The second fetcher returns one record for each scanned row that is
    complete (a timestamp and, for each of the four families, some key
    bound to a non-null value) and none for any other row: the timestamps
    of the returned records are those of the complete scanned rows, in
    order.  Without a cutoff every row is scanned, so a history in which
    every row misses a family gives an empty result. *)
Theorem records_of_complete_rows
        (api : string -> list row) (run_id : string)
        (start_time : option Q) :
  map timestamp (fst (DbWandbFetch.fetch_run_data api run_id start_time))
  = map (fun r => get r "_timestamp")
        (filter complete_row (scanned start_time (api (run_path run_id))))
  /\ List.length (fst (DbWandbFetch.fetch_run_data api run_id None))
     = List.length (filter complete_row (api (run_path run_id))).
Proof.
  split.
  - rewrite db_fetch_scanned. apply flat_map_timestamps.
  - rewrite <- (length_map timestamp), db_fetch_scanned, flat_map_timestamps.
    now rewrite length_map, scanned_no_cutoff.
Qed.

Lemma last_value_of_family_wins_witness :
  family_field Score
    (fill_row "r1" 100%Q
       (complete_row_at 100%Q
          ++ [("TextEmbeddingSynapse_raw_scores.9", Some 0.4%Q)]))
  = Some 0.4%Q.
Proof.
  apply (last_value_of_family_wins
           "r1" Score
           (complete_row_at 100%Q
              ++ [("TextEmbeddingSynapse_raw_scores.9", Some 0.4%Q)])
           (complete_row_at 100%Q) []
           "TextEmbeddingSynapse_raw_scores.9" 0.4%Q).
  - vm_compute. left. reflexivity.
  - reflexivity.
  - reflexivity.
  - intros i [].
Defined.

(** ** Every run of the publisher *)

Lemma subseq_nil_l {A} (l : list A) : subseq [] l.
Proof.
  induction l; [apply subseq_nil|apply subseq_skip; assumption].
Qed.

Lemma subseq_refl {A} (l : list A) : subseq l l.
Proof.
  induction l; [apply subseq_nil|apply subseq_keep; assumption].
Qed.

Lemma subseq_trans {A} (l1 l2 l3 : list A) :
  subseq l1 l2 -> subseq l2 l3 -> subseq l1 l3.
Proof.
  intros H12 H23. revert l1 H12.
  induction H23 as [|x l2 l3 H IH|x l2 l3 H IH]; intros l1 H12.
  - exact H12.
  - apply subseq_skip. now apply IH.
  - inversion H12; subst.
    + apply subseq_skip. now apply IH.
    + apply subseq_keep. now apply IH.
Qed.

Lemma subseq_Forall {A} (P : A -> Prop) (l l' : list A) :
  subseq l l' -> Forall P l' -> Forall P l.
Proof.
  induction 1; intros HF; [constructor| |];
    inversion HF; subst; auto.
Qed.

Lemma subseq_length {A} (l l' : list A) :
  subseq l l' -> (List.length l <= List.length l')%nat.
Proof. induction 1; simpl; lia. Qed.

Lemma skipn_step {A} (l : list A) (i : nat) (x : A) :
  nth_error l i = Some x -> skipn i l = x :: skipn (S i) l.
Proof.
  revert i; induction l as [|a l IH]; intros [|i] H; try discriminate.
  - injection H as ->. reflexivity.
  - simpl in H. change (skipn i l = x :: skipn (S i) l). now apply IH.
Qed.

Lemma subseq_skipn_S {A} (sel l : list A) (i : nat) :
  subseq sel (skipn (S i) l) -> subseq sel (skipn i l).
Proof.
  destruct (nth_error l i) as [x|] eqn:Hx.
  - rewrite (skipn_step l i x Hx). now constructor.
  - apply nth_error_None in Hx.
    rewrite (skipn_all2 l (n := S i)) by lia.
    now rewrite (skipn_all2 l (n := i)) by lia.
Qed.

(** The [enumerate] loop only ever appends records of the batch, at
    increasing positions. *)
Lemma collect_failed_subseq (batch : list kinesis_record)
      (entries : list result_entry) :
  forall idx codes failed codes' failed',
    collect_failed batch idx entries codes failed = inr (codes', failed') ->
    exists sel, failed' = failed ++ sel /\ subseq sel (skipn idx batch).
Proof.
  induction entries as [|e rest IH]; intros idx codes failed codes' failed';
    simpl.
  - intros H; injection H as <- <-. exists [].
    split; [now rewrite app_nil_r|apply subseq_nil_l].
  - destruct (truthy_str (ErrorCode e)); simpl.
    + destruct (ErrorCode e) as [code|]; [|discriminate].
      destruct (nth_error batch idx) as [r|] eqn:Hr; [|discriminate].
      intros H. destruct (IH _ _ _ _ _ H) as (sel & -> & Hs).
      exists (r :: sel). split; [now rewrite <- app_assoc|].
      rewrite (skipn_step _ _ _ Hr). now constructor.
    + intros H. destruct (IH _ _ _ _ _ H) as (sel & -> & Hs).
      exists sel. split; [reflexivity|now apply subseq_skipn_S].
Qed.

Section PublisherRuns.
Variable client : Type.
Variable put_records :
  client -> list kinesis_record -> string -> put_outcome * client.

Local Abbreviation attempt := (attempt client put_records).
Local Abbreviation rounds := (put_records_rounds client put_records).
Local Abbreviation publish := (put_records_to_kinesis client put_records).

Lemma attempt_subseq (batch failed : list kinesis_record)
      (stream_name msg : string) (c c' : client) (t : list event) :
  attempt batch stream_name c = (inr (failed, msg), c', t) ->
  subseq failed batch.
Proof.
  unfold DbWandbFetch.attempt, bind, call_put_records, lift, ret.
  destruct (put_records c batch stream_name) as [[e|resp] c1]; simpl.
  - intros H; injection H as <- _ _ _. apply subseq_refl.
  - destruct (FailedRecordCount resp >? 0)%Z.
    + destruct (collect_failed batch 0 (Records resp) [] [])
        as [x|[codes sel]] eqn:Hc; [discriminate|].
      intros H; injection H as <- _ _ _.
      destruct (collect_failed_subseq _ _ _ _ _ _ _ Hc) as (sel' & -> & Hs).
      exact Hs.
    + intros H; injection H as <- _ _ _. apply subseq_nil_l.
Qed.

(** The trace of any run: the first call, then for each retry the message,
    the pause and the call; no more retries than rounds; every retried
    batch is non-empty and made of records of the batch, in order. *)
Lemma rounds_shape (n : nat) :
  forall (batch : list kinesis_record) (stream_name : string) (rt : Z)
         (c : client),
  exists retries,
    trace_of (rounds n batch stream_name rt c)
    = EvPutRecords batch stream_name
        :: flat_map (retry_events stream_name) retries
    /\ (List.length retries <= n)%nat
    /\ Forall (fun r => snd r <> [] /\ subseq (snd r) batch) retries.
Proof.
  induction n as [|n IH]; intros batch stream_name rt c;
    pose proof (attempt_trace client put_records batch stream_name c) as Ht;
    destruct (attempt batch stream_name c) as [[[e|[failed msg]] c'] t] eqn:Ha;
    unfold trace_of in Ht; simpl in Ht; subst t.
  - rewrite (rounds_error _ _ _ _ _ _ _ _ _ _ Ha).
    exists []. repeat split; [simpl; lia|constructor].
  - destruct failed as [|f failed].
    + rewrite (rounds_done _ _ _ _ _ _ _ _ _ _ Ha).
      exists []. repeat split; [simpl; lia|constructor].
    + rewrite (rounds_raise _ _ _ _ _ _ _ _ _ _ Ha) by discriminate.
      exists []. repeat split; [simpl; lia|constructor].
  - rewrite (rounds_error _ _ _ _ _ _ _ _ _ _ Ha).
    exists []. repeat split; [simpl; lia|constructor].
  - destruct failed as [|f failed].
    + rewrite (rounds_done _ _ _ _ _ _ _ _ _ _ Ha).
      exists []. repeat split; [simpl; lia|constructor].
    + rewrite (rounds_retry_trace _ _ _ _ _ _ _ _ _ _ _ Ha) by discriminate.
      destruct (IH (f :: failed) stream_name (rt - 1)%Z c')
        as (retries & -> & Hlen & Hall).
      pose proof (attempt_subseq _ _ _ _ _ _ _ Ha) as Hsub.
      exists ((msg, f :: failed) :: retries). repeat split.
      * simpl; lia.
      * constructor.
        -- split; [discriminate|exact Hsub].
        -- eapply Forall_impl; [|exact Hall].
           intros r [Hne Hs]. split; [exact Hne|].
           eapply subseq_trans; eassumption.
Qed.

Lemma put_batches_retries (stream_name : string)
      (retries : list (string * list kinesis_record)) :
  put_batches (flat_map (retry_events stream_name) retries)
  = map snd retries.
Proof. induction retries as [|r l IH]; simpl; [|rewrite IH]; reflexivity. Qed.

Lemma sleeps_retries (stream_name : string)
      (retries : list (string * list kinesis_record)) :
  sleeps (flat_map (retry_events stream_name) retries)
  = repeat 1%Z (List.length retries).
Proof. induction retries as [|r l IH]; simpl; [|rewrite IH]; reflexivity. Qed.

Lemma put_streams_retries (stream_name : string)
      (retries : list (string * list kinesis_record)) :
  put_streams (flat_map (retry_events stream_name) retries)
  = repeat stream_name (List.length retries).
Proof. induction retries as [|r l IH]; simpl; [|rewrite IH]; reflexivity. Qed.

(** X10.  Against any client, the publisher makes at most
    [max retry_times 0] retries after its first call: every retry is
    announced by a message and preceded by a pause of 1, every call goes
    to the stream that was given, and there are as many pauses as
    retries.  With [retry_times <= 0] it makes its single call. *)
Theorem publisher_attempts_bounded
        (batch : list kinesis_record) (stream_name : string)
        (retry_times : Z) (c : client) :
  exists retries,
    trace_of (publish batch stream_name retry_times c)
    = EvPutRecords batch stream_name
        :: flat_map (retry_events stream_name) retries
    /\ (List.length retries <= Z.to_nat retry_times)%nat
    /\ List.length
         (put_batches (trace_of (publish batch stream_name retry_times c)))
       = S (List.length retries)
    /\ sleeps (trace_of (publish batch stream_name retry_times c))
       = repeat 1%Z (List.length retries)
    /\ put_streams (trace_of (publish batch stream_name retry_times c))
       = repeat stream_name (S (List.length retries)).
Proof.
  unfold put_records_to_kinesis.
  destruct (rounds_shape (Z.to_nat retry_times) batch stream_name
                         retry_times c) as (retries & Ht & Hlen & _).
  exists retries. rewrite Ht.
  cbn [put_batches sleeps put_streams].
  rewrite put_batches_retries, sleeps_retries, put_streams_retries.
  cbn [List.length]. rewrite length_map.
  repeat split; try reflexivity. exact Hlen.
Qed.

(** X11.  Against any client, every batch the publisher resubmits is
    non-empty and consists of records of the original batch, in their
    original order: a retry never invents, reorders or repeats a record, and
    never sends an empty request. *)
Theorem retries_resend_original_records
        (batch : list kinesis_record) (stream_name : string)
        (retry_times : Z) (c : client) :
  exists resent,
    put_batches (trace_of (publish batch stream_name retry_times c))
    = batch :: resent
    /\ Forall (fun b => b <> [] /\ subseq b batch) resent.
Proof.
  unfold put_records_to_kinesis.
  destruct (rounds_shape (Z.to_nat retry_times) batch stream_name
                         retry_times c) as (retries & Ht & _ & Hall).
  exists (map snd retries). rewrite Ht. cbn [put_batches].
  rewrite put_batches_retries. split; [reflexivity|].
  rewrite Forall_map. exact Hall.
Qed.

Lemma collect_failed_error (batch : list kinesis_record)
      (entries : list result_entry) :
  forall idx codes failed e,
    collect_failed batch idx entries codes failed = inl e -> e = IndexError.
Proof.
  induction entries as [|e' l IH]; intros idx codes failed e; simpl;
    [discriminate|].
  destruct (truthy_str (ErrorCode e')); simpl; [|apply IH].
  destruct (ErrorCode e'); [|congruence].
  destruct (nth_error batch idx); [apply IH|congruence].
Qed.

(** The only error an attempt itself can raise is [IndexError]. *)
Lemma attempt_error (batch : list kinesis_record) (stream_name : string)
      (c c' : client) (t : list event) (e : exn) :
  attempt batch stream_name c = (inl e, c', t) -> e = IndexError.
Proof.
  unfold DbWandbFetch.attempt, bind, call_put_records, lift, ret.
  destruct (put_records c batch stream_name) as [[e'|resp] c1]; simpl;
    [discriminate|].
  destruct (FailedRecordCount resp >? 0)%Z; [|discriminate].
  destruct (collect_failed batch 0 (Records resp) [] [])
    as [x|[codes sel]] eqn:Hc; [|discriminate].
  intros H; injection H as <- _ _.
  eapply collect_failed_error; eassumption.
Qed.

Lemma rounds_message (n : nat) :
  forall (batch : list kinesis_record) (stream_name : string) (rt : Z)
         (c : client) (msg : string),
    result_of (rounds n batch stream_name rt c) = inl (RuntimeError msg) ->
    exists err, msg = could_not_msg (rt - Z.of_nat n) err.
Proof.
  induction n as [|n IH]; intros batch stream_name rt c msg;
    destruct (attempt batch stream_name c) as [[[e|[failed m]] c'] t] eqn:Ha.
  - rewrite (rounds_error _ _ _ _ _ _ _ _ _ _ Ha).
    rewrite (attempt_error _ _ _ _ _ _ Ha). discriminate.
  - destruct failed as [|f failed].
    + rewrite (rounds_done _ _ _ _ _ _ _ _ _ _ Ha). discriminate.
    + rewrite (rounds_raise _ _ _ _ _ _ _ _ _ _ Ha) by discriminate.
      unfold result_of; simpl. intros H; injection H as <-.
      exists m. now rewrite Z.sub_0_r.
  - rewrite (rounds_error _ _ _ _ _ _ _ _ _ _ Ha).
    rewrite (attempt_error _ _ _ _ _ _ Ha). discriminate.
  - destruct failed as [|f failed].
    + rewrite (rounds_done _ _ _ _ _ _ _ _ _ _ Ha). discriminate.
    + rewrite (rounds_retry_result _ _ _ _ _ _ _ _ _ _ _ Ha)
        by discriminate.
      intros H. destruct (IH _ _ _ _ _ H) as [err ->].
      exists err. f_equal. lia.
Qed.

(** X12.  When the publisher gives up, the number in its error message is
    not the number of attempts made: it is the value the retry counter has
    when the error is raised, [0] for a call with [retry_times >= 0] and
    [retry_times] itself for a negative one. *)
Theorem exhaustion_message_counts_zero
        (batch : list kinesis_record) (stream_name : string)
        (retry_times : Z) (c : client) (msg : string) :
  result_of (publish batch stream_name retry_times c)
  = inl (RuntimeError msg) ->
  exists err, msg = could_not_msg (Z.min retry_times 0) err.
Proof.
  unfold put_records_to_kinesis. intros H.
  destruct (rounds_message _ _ _ _ _ _ H) as [err ->].
  exists err. f_equal. lia.
Qed.
End PublisherRuns.

Lemma exhaustion_message_counts_zero_witness :
  exists err,
    "Could not put records after 0 attempts. timed out"
    = could_not_msg (Z.min 1 0) err.
Proof.
  apply (exhaustion_message_counts_zero nat sink_down_twice three_records
                                        "metrics" 1 0%nat).
  reflexivity.
Defined.

(** ** Responses that do not match the batch *)

Lemma collect_failed_out_of_range (batch : list kinesis_record)
      (entries : list result_entry) :
  forall idx codes failed,
    (exists j e, nth_error entries j = Some e /\ rejected e = true
                 /\ (List.length batch <= idx + j)%nat) ->
    collect_failed batch idx entries codes failed = inl IndexError.
Proof.
  induction entries as [|e0 l IH]; intros idx codes failed
                                          (j & e & Hj & He & Hlen).
  - destruct j; discriminate.
  - simpl. fold (rejected e0). destruct (rejected e0) eqn:He0; simpl.
    + destruct (ErrorCode e0) as [code|]; [|reflexivity].
      destruct (nth_error batch idx) as [r|] eqn:Hr; [|reflexivity].
      destruct j as [|j].
      * assert (Hnone : nth_error batch idx = None)
          by (apply nth_error_None; lia).
        congruence.
      * apply IH. exists j, e. repeat split; try assumption. lia.
    + destruct j as [|j].
      * simpl in Hj. injection Hj as ->. congruence.
      * apply IH. exists j, e. repeat split; try assumption. lia.
Qed.

Lemma collect_failed_none (batch : list kinesis_record)
      (entries : list result_entry) :
  forall idx codes failed,
    forallb (fun e => negb (rejected e)) entries = true ->
    collect_failed batch idx entries codes failed = inr (codes, failed).
Proof.
  induction entries as [|e0 l IH]; intros idx codes failed H; simpl;
    [reflexivity|].
  simpl in H. apply andb_prop in H. destruct H as [H0 Hl].
  unfold rejected in H0. rewrite H0. now apply IH.
Qed.

Section OddResponses.
Variable client : Type.
Variable put_records :
  client -> list kinesis_record -> string -> put_outcome * client.

Local Abbreviation attempt := (attempt client put_records).
Local Abbreviation rounds := (put_records_rounds client put_records).
Local Abbreviation publish := (put_records_to_kinesis client put_records).

(** X13.  When a response that reports failures carries an [ErrorCode] at
    a position beyond the end of the submitted batch, the publisher stops
    with [IndexError] right after that call, whatever the retry counter:
    nothing is retried and no [RuntimeError] is built. *)
Theorem rejection_out_of_range_raises
    (c c' : client) (batch : list kinesis_record) (stream_name : string)
    (retry_times : Z) (resp : put_response) (i : nat) (e : result_entry) :
  put_records c batch stream_name = (PutReturned resp, c') ->
  (FailedRecordCount resp > 0)%Z ->
  nth_error (Records resp) i = Some e ->
  rejected e = true ->
  (List.length batch <= i)%nat ->
  publish batch stream_name retry_times c
  = (inl IndexError, c', [EvPutRecords batch stream_name]).
Proof.
  intros H Hpos Hi He Hlen.
  unfold put_records_to_kinesis. apply rounds_error.
  unfold DbWandbFetch.attempt, bind, call_put_records, lift, ret.
  rewrite H. simpl.
  assert (Hc : (FailedRecordCount resp >? 0)%Z = true)
    by (apply Z.gtb_lt; lia).
  rewrite Hc.
  rewrite (collect_failed_out_of_range batch (Records resp) 0 [] []);
    [reflexivity|].
  exists i, e. now repeat split.
Qed.

(** X14.  The publisher believes the response's count before its entries:
    when [FailedRecordCount] is not positive it returns after the one call
    without looking at any [ErrorCode], and when the count is positive but
    no entry carries a non-empty [ErrorCode] it returns just the same.  In
    both cases nothing is retried and no error is raised, for every retry
    counter. *)
Theorem inconsistent_response_is_success
    (c c' : client) (batch : list kinesis_record) (stream_name : string)
    (retry_times : Z) (resp : put_response) :
  put_records c batch stream_name = (PutReturned resp, c') ->
  (FailedRecordCount resp <= 0)%Z
  \/ forallb (fun e => negb (rejected e)) (Records resp) = true ->
  publish batch stream_name retry_times c
  = (inr tt, c', [EvPutRecords batch stream_name]).
Proof.
  intros H Hcase. unfold put_records_to_kinesis.
  destruct (Z_le_gt_dec (FailedRecordCount resp) 0) as [Hle|Hgt].
  - apply (rounds_done _ _ _ _ _ _ _ EmptyString).
    now apply (attempt_accepted client put_records c c' batch _ resp).
  - destruct Hcase as [Hle|Hnone]; [lia|].
    apply (rounds_done _ _ _ _ _ _ _
             ("Individual error codes: " ++ join "," [])%string).
    unfold DbWandbFetch.attempt, bind, call_put_records, lift, ret.
    rewrite H. simpl.
    assert (Hc : (FailedRecordCount resp >? 0)%Z = true)
      by (apply Z.gtb_lt; lia).
    rewrite Hc.
    now rewrite (collect_failed_none batch (Records resp) 0 [] [] Hnone).
Qed.
End OddResponses.

Lemma rejection_out_of_range_raises_witness :
  put_records_to_kinesis nat
    (fun n _ _ =>
       (PutReturned
          (mk_response 1 [mk_entry None; mk_entry (Some "InternalFailure")]),
        S n))
    [mk_record "a" "k"] "metrics" 10 0%nat
  = (inl IndexError, 1%nat, [EvPutRecords [mk_record "a" "k"] "metrics"]).
Proof.
  apply (rejection_out_of_range_raises nat
           (fun n _ _ =>
              (PutReturned
                 (mk_response 1
                    [mk_entry None; mk_entry (Some "InternalFailure")]),
               S n))
           0%nat 1%nat [mk_record "a" "k"] "metrics" 10
           (mk_response 1 [mk_entry None; mk_entry (Some "InternalFailure")])
           1%nat (mk_entry (Some "InternalFailure"))).
  - reflexivity.
  - reflexivity.
  - reflexivity.
  - reflexivity.
  - simpl. lia.
Defined.

Lemma inconsistent_response_is_success_witness :
  put_records_to_kinesis nat
    (fun n _ _ =>
       (PutReturned
          (mk_response 0 [mk_entry (Some "InternalFailure")]), S n))
    [mk_record "a" "k"] "metrics" 10 0%nat
  = (inr tt, 1%nat, [EvPutRecords [mk_record "a" "k"] "metrics"]).
Proof.
  apply (inconsistent_response_is_success nat
           (fun n _ _ =>
              (PutReturned
                 (mk_response 0 [mk_entry (Some "InternalFailure")]), S n))
           0%nat 1%nat [mk_record "a" "k"] "metrics" 10
           (mk_response 0 [mk_entry (Some "InternalFailure")])).
  - reflexivity.
  - left. simpl. lia.
Defined.

(** ** From the fetch to the stream *)

Lemma fetched_run_name (api : string -> list row) (run_id : string)
      (start_time : option Q) (fr : filtered_row) :
  In fr (fst (DbWandbFetch.fetch_run_data api run_id start_time)) ->
  run_name fr = run_id.
Proof.
  rewrite db_fetch_scanned. intros Hin.
  apply in_flat_map in Hin. destruct Hin as (r & _ & Hfr).
  apply row_records_inv in Hfr. destruct Hfr as (ts & _ & -> & _).
  unfold fill_row.
  destruct (fold_fields r (mk_filtered_row run_id None (Some ts)
                                           None None None None))
    as (Hn & _).
  exact Hn.
Qed.

Section Pipeline.
Variable client : Type.
Variable put_records :
  client -> list kinesis_record -> string -> put_outcome * client.
Variable json_dumps : filtered_row -> string.
Variable hash : string -> Z.
Variable frame_str : list filtered_row -> string.
Variable api : string -> list row.
Variable api_error : string -> option string.

Local Abbreviation send :=
  (send_to_kinesis client put_records json_dumps hash).
Local Abbreviation encode := (encode_row json_dumps hash).
Local Abbreviation process :=
  (process_future client put_records json_dumps hash frame_str api
                  api_error).
Local Abbreviation loop :=
  (as_completed_loop client put_records json_dumps hash frame_str api
                     api_error).
Local Abbreviation block :=
  (main_block client put_records json_dumps hash frame_str api api_error).

(** X15.  Everything sent for one run carries one partition key: when the
    frame fetched for [run_id] is handed to [send_to_kinesis], the first
    call submits one record per row of the frame, and every record of
    every call, retries included, has the partition key
    [str(hash(run_id))]. *)
Theorem run_records_share_partition_key
        (run_id : string) (start_time : option Q) (stream_name : string)
        (c : client) :
  (exists resent,
      put_batches
        (trace_of
           (send (fst (DbWandbFetch.fetch_run_data api run_id start_time))
                 stream_name c))
      = map encode (fst (DbWandbFetch.fetch_run_data api run_id start_time))
          :: resent)
  /\ Forall (Forall (fun rec => PartitionKey rec = str (hash run_id)))
            (put_batches
               (trace_of
                  (send (fst (DbWandbFetch.fetch_run_data api run_id
                                                          start_time))
                        stream_name c))).
Proof.
  set (frame := fst (DbWandbFetch.fetch_run_data api run_id start_time)).
  assert (Hfirst : Forall (fun rec => PartitionKey rec = str (hash run_id))
                          (map encode frame)).
  { rewrite Forall_map. apply Forall_forall. intros fr Hfr.
    unfold encode_row; simpl.
    now rewrite (fetched_run_name api run_id start_time fr Hfr). }
  unfold send_to_kinesis, put_records_to_kinesis.
  destruct (rounds_shape client put_records (Z.to_nat 10) (map encode frame)
                         stream_name 10 c) as (retries & Ht & _ & Hall).
  rewrite Ht. cbn [put_batches]. rewrite put_batches_retries.
  split; [now exists (map snd retries)|].
  constructor; [exact Hfirst|].
  rewrite Forall_map. eapply Forall_impl; [|exact Hall].
  intros r [_ Hsub]. eapply subseq_Forall; eassumption.
Qed.

(** *** The [__main__] block *)

Lemma process_future_ok (run_id : string) (start_time : option Q)
      (stream_name : string) (c : client) :
  result_of (process run_id start_time stream_name c) = inr tt.
Proof.
  unfold process_future, future_result.
  destruct (api_error run_id) as [e|]; [reflexivity|].
  unfold fetch_run_data. cbv zeta.
  unfold try_except, bind, print, emit, result_of.
  destruct (send _ stream_name c) as [[[e|[]] c'] t]; reflexivity.
Qed.

Lemma process_future_puts (run_id : string) (start_time : option Q)
      (stream_name : string) (c : client) :
  api_error run_id = None ->
  exists resent,
    put_batches (trace_of (process run_id start_time stream_name c))
    = map encode (fst (DbWandbFetch.fetch_run_data api run_id start_time))
        :: resent.
Proof.
  intros Hok. unfold process_future, future_result. rewrite Hok.
  set (frame := fst (DbWandbFetch.fetch_run_data api run_id start_time)).
  change (fetch_run_data api run_id start_time) with (frame, run_id).
  cbv iota beta.
  assert (Hput : exists resent,
             put_batches (trace_of (send frame stream_name c))
             = map encode frame :: resent).
  { unfold send_to_kinesis, put_records_to_kinesis.
    apply rounds_first_put. }
  destruct Hput as [resent Hput].
  unfold try_except, bind, print, emit, trace_of in *.
  destruct (send frame stream_name c) as [[[e|[]] c'] t]; simpl in *.
  - exists resent. rewrite put_batches_app. simpl.
    now rewrite app_nil_r.
  - exists resent. exact Hput.
Qed.

Lemma loop_step (run_id : string) (rest : list string)
      (start_time : option Q) (stream_name : string) (c : client) :
  loop (run_id :: rest) start_time stream_name c
  = (result_of
       (loop rest start_time stream_name
             (client_of (process run_id start_time stream_name c))),
     client_of
       (loop rest start_time stream_name
             (client_of (process run_id start_time stream_name c))),
     trace_of (process run_id start_time stream_name c)
       ++ trace_of
            (loop rest start_time stream_name
                  (client_of (process run_id start_time stream_name c)))).
Proof.
  cbn [as_completed_loop]. unfold bind.
  pose proof (process_future_ok run_id start_time stream_name c) as Hok.
  unfold result_of, client_of, trace_of in *.
  destruct (process run_id start_time stream_name c) as [[r c1] t].
  simpl in Hok. subst r. cbn [fst snd].
  destruct (loop rest start_time stream_name c1) as [[r2 c2] t2].
  reflexivity.
Qed.

Lemma loop_ok (completed : list string) (start_time : option Q)
      (stream_name : string) :
  forall c, result_of (loop completed start_time stream_name c) = inr tt.
Proof.
  induction completed as [|run_id rest IH]; intros c; [reflexivity|].
  rewrite loop_step. unfold result_of at 1. simpl. apply IH.
Qed.

(** X16.  The main block never fails: whatever the fetches and the client
    do, fetch errors and publisher errors ([RuntimeError] after the last
    retry, [IndexError]) are caught for each run, and the last thing the
    block does is to print that the data has been sent successfully. *)
Theorem main_block_always_reports_success
        (completed : list string) (start_time : option Q)
        (stream_name : string) (c : client) :
  result_of (block completed start_time stream_name c) = inr tt
  /\ exists t,
       trace_of (block completed start_time stream_name c)
       = t ++ [EvPrint success_msg].
Proof.
  unfold main_block, bind.
  pose proof (loop_ok completed start_time stream_name c) as Hok.
  unfold result_of, trace_of in *.
  destruct (loop completed start_time stream_name c) as [[r c1] t].
  simpl in Hok. subst r. simpl. split; [reflexivity|now exists t].
Qed.

Lemma loop_puts (completed : list string) (start_time : option Q)
      (stream_name : string) (run_id : string) :
  In run_id completed -> api_error run_id = None ->
  forall c,
    In (map encode (fst (DbWandbFetch.fetch_run_data api run_id start_time)))
       (put_batches (trace_of (loop completed start_time stream_name c))).
Proof.
  intros Hin Hok.
  induction completed as [|r rest IH]; [destruct Hin|]. intros c.
  rewrite loop_step. unfold trace_of at 1. simpl snd.
  rewrite put_batches_app. apply in_or_app.
  destruct Hin as [->|Hin].
  - left. destruct (process_future_puts run_id start_time stream_name c Hok)
      as [resent ->]. now left.
  - right. now apply IH.
Qed.

(** X17.  Runs are isolated from each other: every run whose fetch
    succeeded has its encoded frame submitted to the stream, wherever it
    stands in the completion order and whatever happened to the runs
    before it, a failed fetch or a publisher that gave up included. *)
Theorem every_fetched_run_is_submitted
        (completed : list string) (start_time : option Q)
        (stream_name : string) (run_id : string) (c : client) :
  In run_id completed ->
  api_error run_id = None ->
  In (map encode (fst (DbWandbFetch.fetch_run_data api run_id start_time)))
     (put_batches (trace_of (block completed start_time stream_name c))).
Proof.
  intros Hin Hok. unfold main_block, bind.
  pose proof (loop_puts completed start_time stream_name run_id Hin Hok c)
    as Hput.
  pose proof (loop_ok completed start_time stream_name c) as Hres.
  unfold result_of, trace_of in *.
  destruct (loop completed start_time stream_name c) as [[r c1] t].
  simpl in *. subst r. simpl. rewrite put_batches_app. apply in_or_app.
  now left.
Qed.

Lemma prints_app (t t' : list event) :
  prints (t ++ t') = prints t ++ prints t'.
Proof.
  induction t as [|[] t IH]; simpl; try rewrite IH; reflexivity.
Qed.

(** X18.  A publisher that gives up is not fatal for the script: when
    publishing the frame of the first completed run raises, the block
    prints the error under the heading of a fetch error, goes on with the
    other runs, and still ends by printing the success message. *)
Theorem publish_failure_is_reported_as_fetch_error
        (run_id : string) (rest : list string) (start_time : option Q)
        (stream_name : string) (c : client) (e : exn) :
  api_error run_id = None ->
  result_of (send (fst (DbWandbFetch.fetch_run_data api run_id start_time))
                  stream_name c) = inl e ->
  result_of (block (run_id :: rest) start_time stream_name c) = inr tt
  /\ exists before after,
       prints (trace_of (block (run_id :: rest) start_time stream_name c))
       = before ++ fetch_error_msg (str_exn e) :: after ++ [success_msg].
Proof.
  intros Hok Hfail.
  split.
  { unfold main_block, bind.
    pose proof (loop_ok (run_id :: rest) start_time stream_name c) as Hres.
    unfold result_of in *.
    destruct (loop (run_id :: rest) start_time stream_name c)
      as [[r c1] t].
    simpl in Hres. now subst r. }
  unfold main_block, bind.
  pose proof (loop_ok (run_id :: rest) start_time stream_name c) as Hres.
  pose proof (loop_step run_id rest start_time stream_name c) as Hstep.
  unfold result_of, trace_of in *.
  destruct (loop (run_id :: rest) start_time stream_name c) as [[r c1] t].
  simpl in Hres. subst r. simpl.
  injection Hstep as _ _ ->.
  rewrite !prints_app. simpl.
  set (frame := fst (DbWandbFetch.fetch_run_data api run_id start_time))
    in *.
  assert (Hp : exists before,
             prints (snd (process run_id start_time stream_name c))
             = before ++ [fetch_error_msg (str_exn e)]).
  { unfold process_future, future_result. rewrite Hok.
    change (fetch_run_data api run_id start_time) with (frame, run_id).
    cbv iota beta. unfold try_except, bind, print, emit.
    destruct (send frame stream_name c) as [[[e'|[]] c'] t'];
      simpl in Hfail; [|discriminate].
    injection Hfail as ->. simpl.
    exists (metrics_msg frame_str run_id frame :: prints t').
    rewrite prints_app. reflexivity. }
  destruct Hp as [before ->].
  exists before.
  exists (prints (snd (loop rest start_time stream_name
                            (snd (fst (process run_id start_time
                                               stream_name c)))))).
  unfold client_of. rewrite <- !app_assoc. reflexivity.
Qed.
End Pipeline.

Lemma every_fetched_run_is_submitted_witness :
  In (map (encode_row toy_dumps toy_hash)
          (fst (DbWandbFetch.fetch_run_data (api_r1 straddling_rows) "r1"
                                            None)))
     (put_batches
        (trace_of
           (main_block nat sink_rejects_all toy_dumps toy_hash
                       (fun _ => "frame") (api_r1 straddling_rows)
                       (fun run_id =>
                          if String.eqb run_id "gone" then Some "404"
                          else None)
                       ["gone"; "r0"; "r1"] None "metrics" 0%nat))).
Proof.
  apply (every_fetched_run_is_submitted
           nat sink_rejects_all toy_dumps toy_hash (fun _ => "frame")
           (api_r1 straddling_rows)
           (fun run_id =>
              if String.eqb run_id "gone" then Some "404" else None)
           ["gone"; "r0"; "r1"] None "metrics" "r1" 0%nat).
  - right. right. left. reflexivity.
  - reflexivity.
Defined.

Lemma publish_failure_is_reported_as_fetch_error_witness :
  result_of
    (main_block nat sink_rejects_all toy_dumps toy_hash (fun _ => "frame")
                (api_r1 straddling_rows) (fun _ => None)
                ["r1"; "r0"] None "metrics" 0%nat)
  = inr tt
  /\ exists before after,
       prints
         (trace_of
            (main_block nat sink_rejects_all toy_dumps toy_hash
                        (fun _ => "frame") (api_r1 straddling_rows)
                        (fun _ => None) ["r1"; "r0"] None "metrics" 0%nat))
       = before
           ++ fetch_error_msg
                (str_exn
                   (RuntimeError
                      "Could not put records after 0 attempts. Individual error codes: InternalFailure,InternalFailure,InternalFailure"))
           :: after ++ [success_msg].
Proof.
  apply (publish_failure_is_reported_as_fetch_error
           nat sink_rejects_all toy_dumps toy_hash (fun _ => "frame")
           (api_r1 straddling_rows) (fun _ => None)
           "r1" ["r0"] None "metrics" 0%nat).
  - reflexivity.
  - vm_compute. reflexivity.
Defined.

(** ** What the client took in *)

Lemma select_partition (rej : nat -> bool) (batch : list kinesis_record) :
  forall i,
    Permutation batch
                (select_from (fun j => negb (rej j)) i batch
                   ++ select_from rej i batch).
Proof.
  induction batch as [|r b IH]; intros i; simpl; [constructor|].
  destruct (rej i); simpl.
  - apply Permutation_cons_app. apply IH.
  - constructor. apply IH.
Qed.

Lemma select_none (rej : nat -> bool) (batch : list kinesis_record) :
  forall i,
    (forall j, (i <= j < i + List.length batch)%nat -> rej j = false) ->
    select_from rej i batch = [].
Proof.
  induction batch as [|r b IH]; intros i H; simpl; [reflexivity|].
  rewrite (H i) by (simpl; lia). apply IH.
  intros j Hj. apply H. simpl. lia.
Qed.

Lemma rejected_at_none (resp : put_response) (i : nat) :
  existsb rejected (Records resp) = false -> rejected_at resp i = false.
Proof.
  intros Hex. unfold rejected_at.
  destruct (nth_error (Records resp) i) as [e|] eqn:Hi; [|reflexivity].
  apply Bool.not_true_is_false. intros He.
  assert (Hin : existsb rejected (Records resp) = true).
  { apply existsb_exists. exists e. split; [|exact He].
    eapply nth_error_In; eassumption. }
  congruence.
Qed.

Lemma no_rejection_forallb (resp : put_response) :
  existsb rejected (Records resp) = false ->
  forallb (fun e => negb (rejected e)) (Records resp) = true.
Proof.
  induction (Records resp) as [|e l IH]; simpl; [reflexivity|].
  intros H. apply orb_false_elim in H. destruct H as [He Hl].
  rewrite He. simpl. now apply IH.
Qed.

Lemma attempt_no_rejection (client : Type)
      (put_records :
         client -> list kinesis_record -> string -> put_outcome * client)
      (c c' : client) (batch : list kinesis_record) (stream_name : string)
      (resp : put_response) :
  put_records c batch stream_name = (PutReturned resp, c') ->
  forallb (fun e => negb (rejected e)) (Records resp) = true ->
  exists msg,
    attempt client put_records batch stream_name c
    = (inr ([], msg), c', [EvPutRecords batch stream_name]).
Proof.
  intros H Hnone.
  unfold DbWandbFetch.attempt, bind, call_put_records, lift, ret.
  rewrite H. simpl.
  destruct (FailedRecordCount resp >? 0)%Z.
  - rewrite (collect_failed_none batch (Records resp) 0 [] [] Hnone).
    simpl. eexists. reflexivity.
  - eexists. reflexivity.
Qed.

Section Delivery.
Variable client : Type.
Variable put_records :
  client -> list kinesis_record -> string -> put_outcome * client.

Local Abbreviation log_t := (list (list kinesis_record * put_outcome)).
Local Abbreviation lattempt :=
  (attempt (client * log_t) (logged put_records)).
Local Abbreviation lrounds :=
  (put_records_rounds (client * log_t) (logged put_records)).
Local Abbreviation lpublish :=
  (put_records_to_kinesis (client * log_t) (logged put_records)).

(** One attempt against an honest client splits the batch between what
    the call took in and what is left to resend. *)
Lemma attempt_honest (batch : list kinesis_record) (stream_name : string)
      (c : client) (log : log_t) :
  honest (fst (put_records c batch stream_name)) batch = true ->
  exists failed msg,
    lattempt batch stream_name (c, log)
    = (inr (failed, msg),
       (snd (put_records c batch stream_name),
        log ++ [(batch, fst (put_records c batch stream_name))]),
       [EvPutRecords batch stream_name])
    /\ Permutation batch
         (accepted_by (fst (put_records c batch stream_name)) batch
            ++ failed).
Proof.
  destruct (put_records c batch stream_name) as [[e|resp] c'] eqn:H;
    simpl; intros Hh.
  - exists batch, e. split.
    + apply attempt_raised. unfold logged. simpl. now rewrite H.
    + apply Permutation_refl.
  - apply andb_prop in Hh. destruct Hh as [Hlen Hcount].
    apply Nat.eqb_eq in Hlen.
    assert (Hl : logged put_records (c, log) batch stream_name
                 = (PutReturned resp,
                    (c', log ++ [(batch, PutReturned resp)])))
      by (unfold logged; simpl; now rewrite H).
    destruct (existsb rejected (Records resp)) eqn:Hex; simpl in Hcount.
    + apply Z.gtb_lt in Hcount.
      destruct (attempt_rejected _ (logged put_records) _ _ batch
                  stream_name resp (rejected_at resp) Hl)
        as [msg Ha]; [lia|exact Hlen| |].
      * intros i e Hi. unfold rejected_at. now rewrite Hi.
      * exists (records_at (rejected_at resp) batch), msg.
        split; [exact Ha|]. apply select_partition.
    + destruct (attempt_no_rejection _ (logged put_records) _ _ batch
                  stream_name resp Hl (no_rejection_forallb resp Hex))
        as [msg Ha].
      exists [], msg. split; [exact Ha|].
      unfold records_at.
      pose proof (select_partition (rejected_at resp) batch 0) as Hp.
      rewrite (select_none (rejected_at resp) batch 0) in Hp; [exact Hp|].
      intros j _. now apply rejected_at_none.
Qed.

Hypothesis put_records_honest :
  forall c batch stream_name,
    honest (fst (put_records c batch stream_name)) batch = true.

Lemma rounds_delivery (n : nat) :
  forall (batch : list kinesis_record) (stream_name : string) (rt : Z)
         (c : client) (log : log_t),
    result_of (lrounds n batch stream_name rt (c, log)) = inr tt ->
    exists calls,
      snd (client_of (lrounds n batch stream_name rt (c, log)))
      = log ++ calls
      /\ Permutation batch (accepted_in calls).
Proof.
  induction n as [|n IH]; intros batch stream_name rt c log;
    destruct (attempt_honest batch stream_name c log
                (put_records_honest c batch stream_name))
      as (failed & msg & Ha & Hperm);
    destruct failed as [|f failed].
  - rewrite (rounds_done _ _ _ _ _ _ _ _ _ _ Ha). intros _.
    eexists. split; [reflexivity|].
    unfold accepted_in. simpl. now rewrite !app_nil_r in *.
  - rewrite (rounds_raise _ _ _ _ _ _ _ _ _ _ Ha) by discriminate.
    discriminate.
  - rewrite (rounds_done _ _ _ _ _ _ _ _ _ _ Ha). intros _.
    eexists. split; [reflexivity|].
    unfold accepted_in. simpl. now rewrite !app_nil_r in *.
  - assert (Hcl :
        client_of (lrounds (S n) batch stream_name rt (c, log))
        = client_of
            (lrounds n (f :: failed) stream_name (rt - 1)
               (snd (put_records c batch stream_name),
                log ++ [(batch, fst (put_records c batch stream_name))]))).
    { now rewrite (rounds_retry _ _ _ _ _ _ _ _ _ _ _ Ha)
        by discriminate. }
    rewrite Hcl.
    rewrite (rounds_retry_result _ _ _ _ _ _ _ _ _ _ _ Ha)
      by discriminate.
    intros Hok. destruct (IH _ _ _ _ _ Hok) as (calls & -> & Hp).
    exists ((batch, fst (put_records c batch stream_name)) :: calls).
    split; [now rewrite <- app_assoc|].
    unfold accepted_in in *. simpl.
    eapply Permutation_trans; [exact Hperm|].
    apply Permutation_app_head. exact Hp.
Qed.

(** X19.  Against a client that answers every batch as the service
    documents, a normal return of the publisher means that every record of
    the batch was taken in by exactly one of the calls: the records the
    logged calls accepted are the batch, up to order. *)
Theorem normal_return_delivers_each_record_once
        (batch : list kinesis_record) (stream_name : string)
        (retry_times : Z) (c : client) :
  result_of (lpublish batch stream_name retry_times (c, [])) = inr tt ->
  Permutation
    batch
    (accepted_in
       (snd (client_of (lpublish batch stream_name retry_times (c, []))))).
Proof.
  unfold put_records_to_kinesis. intros Hok.
  destruct (rounds_delivery _ _ _ _ _ _ Hok) as (calls & -> & Hp).
  exact Hp.
Qed.
End Delivery.

Lemma accepting_entries (batch : list kinesis_record) :
  existsb rejected (map (fun _ => mk_entry None) batch) = false.
Proof. induction batch; simpl; auto. Defined.

Lemma normal_return_delivers_each_record_once_witness :
  Permutation
    three_records
    (accepted_in
       (snd (client_of
               (put_records_to_kinesis
                  (nat * list (list kinesis_record * put_outcome))
                  (logged sink_rejects_first_once)
                  three_records "metrics" 10 (0%nat, []))))).
Proof.
  apply (normal_return_delivers_each_record_once
           nat sink_rejects_first_once).
  - intros c batch stream_name. unfold sink_rejects_first_once, honest.
    destruct c as [|c], batch as [|r batch]; simpl;
      rewrite ?length_map, ?Nat.eqb_refl, ?accepting_entries; reflexivity.
  - reflexivity.
Defined.

(** ** The retry counter *)

Section RetryCounter.
Variable client : Type.
Variable put_records :
  client -> list kinesis_record -> string -> put_outcome * client.
Variable json_dumps : filtered_row -> string.
Variable hash : string -> Z.

Local Abbreviation attempt := (attempt client put_records).
Local Abbreviation rounds := (put_records_rounds client put_records).
Local Abbreviation publish := (put_records_to_kinesis client put_records).
Local Abbreviation send :=
  (send_to_kinesis client put_records json_dumps hash).

Lemma rounds_more (n : nat) :
  forall (m : nat) (batch : list kinesis_record) (stream_name : string)
         (rt rt' : Z) (c : client),
    (n <= m)%nat ->
    result_of (rounds n batch stream_name rt c) = inr tt ->
    rounds m batch stream_name rt' c = rounds n batch stream_name rt c.
Proof.
  induction n as [|n IH]; intros m batch stream_name rt rt' c Hle;
    destruct (attempt batch stream_name c) as [[[e|[failed msg]] c'] t] eqn:Ha.
  - rewrite !(rounds_error _ _ _ _ _ _ _ _ _ _ Ha). reflexivity.
  - destruct failed as [|f failed].
    + rewrite !(rounds_done _ _ _ _ _ _ _ _ _ _ Ha). reflexivity.
    + rewrite (rounds_raise _ _ _ _ _ _ _ _ _ _ Ha) by discriminate.
      discriminate.
  - rewrite !(rounds_error _ _ _ _ _ _ _ _ _ _ Ha). reflexivity.
  - destruct failed as [|f failed].
    + rewrite !(rounds_done _ _ _ _ _ _ _ _ _ _ Ha). reflexivity.
    + destruct m as [|m]; [lia|].
      rewrite (rounds_retry_result _ _ _ _ _ _ _ _ _ _ _ Ha)
        by discriminate.
      intros Hok.
      rewrite !(rounds_retry _ _ _ _ _ _ _ _ _ _ _ Ha) by discriminate.
      rewrite (IH m (f :: failed) stream_name (rt - 1)%Z (rt' - 1)%Z c')
        by (lia || exact Hok).
      reflexivity.
Qed.

(** X20.  A larger retry counter never changes a run that succeeds: when
    the publisher returns normally with [retry_times], it gives the same
    result, the same final client and the same trace with any counter that
    is at least as large. *)
Theorem more_retries_keep_success
        (batch : list kinesis_record) (stream_name : string)
        (retry_times retry_times' : Z) (c : client) :
  (retry_times <= retry_times')%Z ->
  result_of (publish batch stream_name retry_times c) = inr tt ->
  publish batch stream_name retry_times' c
  = publish batch stream_name retry_times c.
Proof.
  unfold put_records_to_kinesis. intros Hle Hok.
  apply rounds_more; [lia|exact Hok].
Qed.

(** X21.  [send_to_kinesis] hands the whole frame over in one request,
    however many rows it has, and then allows ten retries: it makes at
    least one and at most eleven calls, and pauses once before each call
    after the first. *)
Theorem send_to_kinesis_call_budget
        (frame : list filtered_row) (stream_name : string) (c : client) :
  (1 <= List.length (put_batches (trace_of (send frame stream_name c)))
   <= 11)%nat
  /\ List.length (sleeps (trace_of (send frame stream_name c)))
     = pred (List.length
               (put_batches (trace_of (send frame stream_name c))))
  /\ List.length
       (hd [] (put_batches (trace_of (send frame stream_name c))))
     = List.length frame.
Proof.
  unfold send_to_kinesis, put_records_to_kinesis.
  destruct (rounds_shape client put_records (Z.to_nat 10)
              (map (encode_row json_dumps hash) frame) stream_name 10 c)
    as (retries & Ht & Hlen & _).
  rewrite Ht. cbn [put_batches sleeps hd].
  rewrite put_batches_retries, sleeps_retries.
  cbn [List.length]. rewrite !length_map, repeat_length.
  change (Z.to_nat 10) with 10%nat in Hlen. simpl. lia.
Qed.
End RetryCounter.

Lemma more_retries_keep_success_witness :
  put_records_to_kinesis nat sink_down_twice three_records "metrics" 10
                         0%nat
  = put_records_to_kinesis nat sink_down_twice three_records "metrics" 2
                           0%nat.
Proof.
  apply (more_retries_keep_success nat sink_down_twice three_records
                                   "metrics" 2 10 0%nat).
  - lia.
  - reflexivity.
Defined.
